(** * pkglint: the package graph and the want-closure resolver

    Shallow embedding of [src/pkglint.py]: the [Package] entity, the
    version stripping of [Package.__strip_versions], and the [Packages]
    graph with [add], [mark_wanted_by_name], [__mark_wanted_by_provided]
    and [get_unwanted]. *)

From Stdlib Require Import String Ascii List Bool Arith Lia Relations.
Import ListNotations.
Open Scope string_scope.
Open Scope list_scope.

(* ------------------------------------------------------------------ *)
(** ** Version stripping: [re.sub(r'[<>=]{1,2}.+$', '', item)] *)

Module Regex.

(** The character class [[<>=]]. *)
Definition is_cmp (c : ascii) : bool :=
  (c =? "<")%char || (c =? ">")%char || (c =? "=")%char.

(** [.] matches every character but the newline. *)
Definition is_nl (c : ascii) : bool := (c =? "010")%char.

(** Longest prefix of non-newline characters (what greedy [.+] eats),
    with the rest of the string. *)
Fixpoint span_dot (s : string) : string * string :=
  match s with
  | EmptyString => (EmptyString, EmptyString)
  | String c s' =>
      if is_nl c then (EmptyString, s)
      else let (run, rest) := span_dot s' in (String c run, rest)
  end.

(** [.+$] at the start of [s]: [.+] is greedy and backtracks; [$] (no
    MULTILINE) holds at the end of the string or just before a final
    newline.  Returns the part of [s] after the match. *)
Definition dotplus_dollar (s : string) : option string :=
  let (run, rest) := span_dot s in
  match run with
  | EmptyString => None
  | _ =>
      match rest with
      | EmptyString => Some EmptyString
      | String c EmptyString => if is_nl c then Some rest else None
      | _ => None
      end
  end.

(** [[<>=]{1,2}.+$] anchored at the start of [s]: the greedy repeat
    tries two comparator characters first, then one. *)
Definition match_at (s : string) : option string :=
  match s with
  | EmptyString => None
  | String c1 s1 =>
      if is_cmp c1 then
        match s1 with
        | String c2 s2 =>
            if is_cmp c2 then
              match dotplus_dollar s2 with
              | Some r => Some r
              | None => dotplus_dollar s1
              end
            else dotplus_dollar s1
        | EmptyString => dotplus_dollar s1
        end
      else None
  end.

(** [re.sub(pattern, '', s)]: scan left to right, drop every match and
    resume the scan after it.  [fuel] bounds the scan; [sub] gives it
    one step more than the length of the string. *)
Fixpoint sub_aux (fuel : nat) (s : string) : string :=
  match fuel with
  | O => s
  | S f =>
      match s with
      | EmptyString => EmptyString
      | String c s' =>
          match match_at s with
          | Some r => sub_aux f r
          | None => String c (sub_aux f s')
          end
      end
  end.

Definition sub (s : string) : string := sub_aux (S (String.length s)) s.

Fixpoint has_nl (s : string) : bool :=
  match s with
  | EmptyString => false
  | String c s' => is_nl c || has_nl s'
  end.

(** The rule as the effect of [sub] on a line: cut at the first
    comparator character, unless it is the last character. *)
Fixpoint strip_rule (s : string) : string :=
  match s with
  | EmptyString => EmptyString
  | String c s' =>
      if is_cmp c then match s' with EmptyString => s | _ => EmptyString end
      else String c (strip_rule s')
  end.

(** The rule in the words of the specification: truncate at the first
    comparator character through the end of the string. *)
Fixpoint spec_truncate (s : string) : string :=
  match s with
  | EmptyString => EmptyString
  | String c s' => if is_cmp c then EmptyString else String c (spec_truncate s')
  end.

End Regex.

(* ------------------------------------------------------------------ *)
(** ** Package *)

Record Package := mkPackage {
  desc_file_path : string;
  name : string;
  version : string;
  desc : string;
  depends : list string;
  provides : list string;
  wanted : bool
}.

(** [Package.__strip_versions]. *)
Definition strip_versions (items : list string) : list string :=
  map Regex.sub items.

(** The sections read from a [desc] file: section header to its lines
    (the result of [Package.__read_sections_from]). *)
Definition Sections := list (string * list string).

Fixpoint sections_get (k : string) (s : Sections) : option (list string) :=
  match s with
  | [] => None
  | (k', v) :: s' => if String.eqb k' k then Some v else sections_get k s'
  end.

Definition SECTION_NAME := "%NAME%".
Definition SECTION_VERSION := "%VERSION%".
Definition SECTION_DESC := "%DESC%".
Definition SECTION_DEPENDS := "%DEPENDS%".
Definition SECTION_PROVIDES := "%PROVIDES%".

(** [sections[k][0]]: [None] where Python raises [KeyError] or
    [IndexError]. *)
Definition first_line (k : string) (s : Sections) : option string :=
  match sections_get k s with
  | Some (x :: _) => Some x
  | _ => None
  end.

(** [sections.get(k) or []]. *)
Definition get_or_nil (k : string) (s : Sections) : list string :=
  match sections_get k s with
  | Some l => l
  | None => []
  end.

(** [Package.__init__] from the parsed sections of [desc_file_path]. *)
Definition Package_init (path : string) (sections : Sections) : option Package :=
  match first_line SECTION_NAME sections,
        first_line SECTION_VERSION sections,
        first_line SECTION_DESC sections with
  | Some n, Some v, Some d =>
      Some {| desc_file_path := path; name := n; version := v; desc := d;
              depends := strip_versions (get_or_nil SECTION_DEPENDS sections);
              provides := strip_versions (get_or_nil SECTION_PROVIDES sections);
              wanted := false |}
  | _, _, _ => None
  end.

(** [Package.mark_wanted]. *)
Definition mark_wanted (p : Package) : Package :=
  {| desc_file_path := desc_file_path p; name := name p; version := version p;
     desc := desc p; depends := depends p; provides := provides p;
     wanted := true |}.

(* ------------------------------------------------------------------ *)
(** ** The package graph *)

(** [Packages]: [__by_name] is a dict, kept here as an association list
    in insertion order (the order of [dict.values()]); [__by_provides]
    maps an alias to the list of packages providing it.  Its lists hold
    the very objects of [__by_name]; since names are unique keys of
    [__by_name] (checked by [add]) an entry is kept as the package name,
    so that a [wanted] flag set through one index is seen through the
    other, as with the shared Python objects. *)
Record Packages := mkPackages {
  by_name : list (string * Package);
  by_provides : list (string * list string)
}.

Definition empty : Packages := mkPackages [] [].

Fixpoint find_name (k : string) (l : list (string * Package)) : option Package :=
  match l with
  | [] => None
  | (k', p) :: l' => if String.eqb k' k then Some p else find_name k l'
  end.

Fixpoint find_prov (k : string) (l : list (string * list string)) : option (list string) :=
  match l with
  | [] => None
  | (k', v) :: l' => if String.eqb k' k then Some v else find_prov k l'
  end.

(** [package.mark_wanted()] on the object stored under key [k]. *)
Fixpoint set_wanted (k : string) (l : list (string * Package)) : list (string * Package) :=
  match l with
  | [] => []
  | (k', p) :: l' =>
      if String.eqb k' k then (k', mark_wanted p) :: l' else (k', p) :: set_wanted k l'
  end.

(** [if provided not in by_provides: by_provides[provided] = []] then
    [by_provides[provided].append(package)]. *)
Fixpoint prov_append (v n : string) (l : list (string * list string)) :
    list (string * list string) :=
  match l with
  | [] => [(v, [n])]
  | (k', ns) :: l' =>
      if String.eqb k' v then (k', ns ++ [n]) :: l' else (k', ns) :: prov_append v n l'
  end.

(** Errors raised by the code.  [OutOfFuel] is not a Python error: it
    marks an exhausted recursion bound of the model, and is proved never
    to occur at the fuel [mark_wanted_by_name] gives. *)
Inductive error :=
| DuplicationError (pkg : string)
| LookupError (dep : string) (required_by : string)
| OutOfFuel.

(** State and exception monad: mutations made before a [raise] stay. *)
Inductive outcome (A : Type) :=
| Ok (a : A) (st : Packages)
| Raise (e : error) (st : Packages).
Arguments Ok {A} a st.
Arguments Raise {A} e st.

Definition M (A : Type) := Packages -> outcome A.

Definition ret {A} (a : A) : M A := fun st => Ok a st.
Definition raise {A} (e : error) : M A := fun st => Raise e st.
Definition bind {A B} (m : M A) (k : A -> M B) : M B :=
  fun st => match m st with Ok a st' => k a st' | Raise e st' => Raise e st' end.

Notation "x <- m ;; k" := (bind m (fun x => k))
  (at level 61, m at next level, right associativity).
Notation "m ;; k" := (bind m (fun _ => k))
  (at level 61, right associativity).

Fixpoint for_each {A} (body : A -> M unit) (l : list A) : M unit :=
  match l with
  | [] => ret tt
  | x :: l' => body x ;; for_each body l'
  end.

(** [Packages.add]. *)
Definition add (package : Package) : M unit :=
  fun st =>
    match find_name (name package) (by_name st) with
    | Some _ => Raise (DuplicationError (name package)) st
    | None =>
        Ok tt {| by_name := by_name st ++ [(name package, package)];
                 by_provides :=
                   fold_left (fun acc provided => prov_append provided (name package) acc)
                     (provides package) (by_provides st) |}
    end.

(** [Packages.__mark_wanted_by_provided], over the recursive call
    [mark_by_name] to [mark_wanted_by_name]. *)
Definition mark_wanted_by_provided (mark_by_name : string -> M bool)
    (provided_name : string) : M bool :=
  fun st =>
    match find_prov provided_name (by_provides st) with
    | None => Ok false st
    | Some pkgs => (for_each (fun n => _ <- mark_by_name n ;; ret tt) pkgs ;; ret true) st
    end.

(** [package.mark_wanted()] for the package stored under [n]. *)
Definition marked (n : string) (st : Packages) : Packages :=
  {| by_name := set_wanted n (by_name st); by_provides := by_provides st |}.

(** The body of the loop [for dep_name in package.depends] of
    [mark_wanted_by_name], over the recursive call [mark_by_name]. *)
Definition satisfy_dep (mark_by_name : string -> M bool) (package : Package)
    (dep_name : string) : M unit :=
  b1 <- mark_by_name dep_name ;;
  if b1 then ret tt else
  b2 <- mark_wanted_by_provided mark_by_name dep_name ;;
  if b2 then ret tt else raise (LookupError dep_name (name package)).

(** [Packages.mark_wanted_by_name], with a bound on the recursion depth. *)
Fixpoint mark_wanted_by_name_f (fuel : nat) (package_name : string) : M bool :=
  match fuel with
  | O => raise OutOfFuel
  | S f =>
      fun st =>
        match find_name package_name (by_name st) with
        | None => Ok false st
        | Some package =>
            if wanted package then Ok true st
            else
              (for_each (satisfy_dep (mark_wanted_by_name_f f) package) (depends package) ;;
               ret true) (marked package_name st)
        end
  end.

(** The depth of the recursion never exceeds the number of packages plus
    one: every nested call that recurses marks a new package first. *)
Definition mark_wanted_by_name (package_name : string) : M bool :=
  fun st => mark_wanted_by_name_f (S (List.length (by_name st))) package_name st.

(** [Packages.get_unwanted]. *)
Definition get_unwanted (st : Packages) : list Package :=
  map snd (filter (fun kp => negb (wanted (snd kp))) (by_name st)).

(** [wanted] of the package stored under [k]. *)
Definition is_wanted (st : Packages) (k : string) : bool :=
  match find_name k (by_name st) with
  | Some p => wanted p
  | None => false
  end.

(** Building a graph from a list of packages, as [LocalPackageDatabase.read]
    does with the packages it constructs. *)
Definition build (ps : list Package) : M unit := for_each add ps.

(** The operations a run performs on a graph or on its packages. *)
Inductive op :=
| OpAdd (p : Package)
| OpMarkWantedByName (n : string)
| OpGetUnwanted
| OpMarkWanted (n : string).   (** [package.mark_wanted()] on a stored package *)

Definition st_of {A} (o : outcome A) : Packages :=
  match o with Ok _ s => s | Raise _ s => s end.

(** The graph after one operation, whether it returned or raised (an
    exception the caller catches does not undo the mutations). *)
Definition step (o : op) (st : Packages) : Packages :=
  match o with
  | OpAdd p => st_of (add p st)
  | OpMarkWantedByName n => st_of (mark_wanted_by_name n st)
  | OpGetUnwanted => let _ := get_unwanted st in st
  | OpMarkWanted n => marked n st
  end.

Fixpoint run_ops (ops : list op) (st : Packages) : Packages :=
  match ops with
  | [] => st
  | o :: ops' => run_ops ops' (step o st)
  end.

(** Invariant of graphs built by [add]: keys are unique and are the
    names of their packages, and every alias a stored package provides
    lists that package in [__by_provides]. *)
Definition wf (st : Packages) : Prop :=
  NoDup (map fst (by_name st)) /\
  Forall (fun kp => name (snd kp) = fst kp) (by_name st) /\
  (forall k p v, In (k, p) (by_name st) -> In v (provides p) ->
     exists ns, find_prov v (by_provides st) = Some ns /\ In k ns).

(* ------------------------------------------------------------------ *)
(** ** Marking only ever sets flags *)

(** [e'] is [e], possibly with its package marked wanted. *)
Definition le_entry (e e' : string * Package) : Prop :=
  fst e' = fst e /\ (snd e' = snd e \/ snd e' = mark_wanted (snd e)).

Definition le_st (st st' : Packages) : Prop :=
  by_provides st' = by_provides st /\ Forall2 le_entry (by_name st) (by_name st').

Definition count_unwanted (l : list (string * Package)) : nat :=
  List.length (filter (fun kp => negb (wanted (snd kp))) l).

(** [m] only marks packages wanted. *)
Definition pres {A} (m : M A) : Prop := forall st, le_st st (st_of (m st)).

(** [m] never exhausts its fuel from a graph with at most [c] unwanted
    packages. *)
Definition safe {A} (c : nat) (m : M A) : Prop :=
  forall st st', count_unwanted (by_name st) <= c -> m st <> Raise OutOfFuel st'.

(** [m] raises no [DuplicationError]. *)
Definition errs_lookup {A} (m : M A) : Prop :=
  forall st e st', m st = Raise e st' ->
    e = OutOfFuel \/ exists d q, e = LookupError d q.


(* ------------------------------------------------------------------ *)
(** ** Small graphs *)

Definition example_pkg (n : string) (deps provs : list string) : Package :=
  {| desc_file_path := "/var/lib/pacman/local/" ++ n ++ "-1.0-1/desc"; name := n;
     version := "1.0-1"; desc := n; depends := deps; provides := provs; wanted := false |}.

Definition built (ps : list Package) : Packages := st_of (build ps empty).

(** [x] provides the alias [V], on which [y] depends. *)
Definition alias_pkgs : list Package := [example_pkg "x" [] ["V"]; example_pkg "y" ["V"] []].
Definition g_alias : Packages := built alias_pkgs.

(** As [g_alias], but the provider [x] has a dependency nothing satisfies. *)
Definition g_alias_broken : Packages :=
  built [example_pkg "x" ["missing"] ["V"]; example_pkg "y" ["V"] []].

(** [a] and [b] depend on each other. *)
Definition g_cycle : Packages := built [example_pkg "a" ["b"] []; example_pkg "b" ["a"] []].

(** [z] depends on [e] and [d], neither of which exists. *)
Definition g_missing : Packages := built [example_pkg "z" ["e"; "d"] []].

(** The sections of a [desc] file. *)
Definition foo_sections : Sections :=
  [(SECTION_NAME, ["foo"]); (SECTION_VERSION, ["1.0-1"]); (SECTION_DESC, ["demo"]);
   (SECTION_DEPENDS, ["bar="; "baz>=1.2.3"]); (SECTION_PROVIDES, ["qux=2"])].

(** A database: [a] depends on the alias [V] that [b] provides, [b]
    depends on [c], and [d] stands alone. *)
Definition example_db : list Package :=
  [example_pkg "a" ["V"] []; example_pkg "b" ["c"] ["V"]; example_pkg "c" [] [];
   example_pkg "d" [] []].

(* ------------------------------------------------------------------ *)
(** ** Reachability in the dependency graph *)

(** [k'] is met when [mark_wanted_by_name] processes the package stored
    under [k]: one of its dependencies [d] is the package name [k'], or
    [d] is no package name and [k'] is listed in [by_provides[d]]. *)
Definition dep_edge (st : Packages) (k k' : string) : Prop :=
  exists p d, find_name k (by_name st) = Some p /\ In d (depends p) /\
    ((find_name d (by_name st) <> None /\ k' = d) \/
     (find_name d (by_name st) = None /\
      exists ns, find_prov d (by_provides st) = Some ns /\ In k' ns)).

Definition reaches (st : Packages) : string -> string -> Prop :=
  clos_refl_trans_1n string (dep_edge st).

(** Every name listed in [by_provides] is a package name. *)
Definition prov_keys (st : Packages) : Prop :=
  forall v ns k, find_prov v (by_provides st) = Some ns -> In k ns ->
    find_name k (by_name st) <> None.

(** The packages the loop body for dependency [d] of [mark_wanted_by_name]
    leads to: [d] itself when it is a package name, otherwise the packages
    listed in [by_provides[d]]. *)
Definition dep_reaches (st : Packages) (d k : string) : Prop :=
  (find_name d (by_name st) <> None /\ reaches st d k) \/
  (find_name d (by_name st) = None /\
   exists ns, find_prov d (by_provides st) = Some ns /\ exists k', In k' ns /\ reaches st k' k).

(** The names [__by_provides[v]] is expected to list after the packages
    [ps] are added in order: each package once per entry [v] of its
    [provides]. *)
Definition providers (v : string) (ps : list Package) : list string :=
  flat_map (fun p => map (fun _ => name p) (filter (fun w => String.eqb w v) (provides p))) ps.

(** A lookup in [__by_provides] after appending [l] to the entry [o]
    ([None]: no key; a key is created by the first append). *)
Definition opt_app (o : option (list string)) (l : list string) : option (list string) :=
  match o, l with
  | None, [] => None
  | None, _ => Some l
  | Some a, _ => Some (a ++ l)
  end.

(** A successful run of [m] only marks packages related by [R] to the
    state it started from. *)
Definition sound_ok {A} (R : Packages -> string -> Prop) (m : M A) : Prop :=
  forall st a st' k, m st = Ok a st' -> is_wanted st' k = true ->
    is_wanted st k = true \/ R st k.

(** Every wanted package outside [stack] has all its successors wanted. *)
Definition closed_except (stack : list string) (st : Packages) : Prop :=
  forall k k', is_wanted st k = true -> ~ In k stack -> dep_edge st k k' ->
    is_wanted st k' = true.

(** A successful run of [m] keeps [closed_except stack]. *)
Definition keeps_closed {A} (stack : list string) (m : M A) : Prop :=
  forall st a st', closed_except stack st -> m st = Ok a st' -> closed_except stack st'.

(* ------------------------------------------------------------------ *)
(** ** The run: [process] *)

(** How [process] stops without printing: an error of the graph, or
    [LookupError(f"'{wanted_pkg_name}' is not installed")]. *)
Inductive process_error :=
| GraphError (e : error)
| NotInstalled (wanted_pkg_name : string).

(** The loop over [UserWantsList(...).items] in [process]. *)
Fixpoint mark_wants (wants : list string) (st : Packages) : option process_error * Packages :=
  match wants with
  | [] => (None, st)
  | w :: ws =>
      match mark_wanted_by_name w st with
      | Ok true s => mark_wants ws s
      | Ok false s => (Some (NotInstalled w), s)
      | Raise e s => (Some (GraphError e), s)
      end
  end.

Inductive process_result :=
| Printed (lines : list string) (st : Packages)
| Failed (e : process_error) (st : Packages).

(** [print(f"{package.name} - {package.desc}")]. *)
Definition output_line (p : Package) : string := name p ++ " - " ++ desc p.

(** [process()] once the database has been read as the package list [db]
    (in the order of [glob.glob]) and the wants list as [wants]:
    [LocalPackageDatabase.read] adds the packages one by one, each wanted
    name is marked, and the unwanted packages are printed. *)
Definition process_core (db : list Package) (wants : list string) : process_result :=
  match build db empty with
  | Raise e s => Failed (GraphError e) s
  | Ok _ st =>
      match mark_wants wants st with
      | (None, s) => Printed (map output_line (get_unwanted s)) s
      | (Some e, s) => Failed e s
      end
  end.

Definition result_state (r : process_result) : Packages :=
  match r with Printed _ s => s | Failed _ s => s end.

(* ------------------------------------------------------------------ *)
(** ** Text: the [desc] files and the wants list *)

(** Python text as a string of code points below 256 (one [ascii] each),
    as [file.read()] returns it. *)
Module Text.

(** [str.isspace] of one character ([str.strip] removes these). *)
Definition is_space (c : ascii) : bool :=
  let n := nat_of_ascii c in
  ((Nat.leb 9 n) && (Nat.leb n 13)) || ((Nat.leb 28 n) && (Nat.leb n 32)) || (Nat.eqb n 133) || (Nat.eqb n 160).

(** A line boundary of [str.splitlines]: [\n], [\r], [\v], [\f],
    [\x1c], [\x1d], [\x1e], [\x85]. *)
Definition is_line_break (c : ascii) : bool :=
  let n := nat_of_ascii c in
  ((Nat.leb 10 n) && (Nat.leb n 13)) || ((Nat.leb 28 n) && (Nat.leb n 30)) || (Nat.eqb n 133).

Definition is_upper (c : ascii) : bool :=
  let n := nat_of_ascii c in (Nat.leb 65 n) && (Nat.leb n 90).

Fixpoint lstrip (s : string) : string :=
  match s with
  | EmptyString => EmptyString
  | String c s' => if is_space c then lstrip s' else s
  end.

Fixpoint rstrip (s : string) : string :=
  match s with
  | EmptyString => EmptyString
  | String c s' =>
      let r := rstrip s' in
      if String.eqb r EmptyString && is_space c then EmptyString else String c r
  end.

(** [str.strip()]. *)
Definition strip (s : string) : string := rstrip (lstrip s).

(** [[A-Z]+%] at the start of [s], [seen] telling whether a letter has
    been read already. *)
Fixpoint upper_then_pct (s : string) (seen : bool) : bool :=
  match s with
  | EmptyString => false
  | String c s' => if is_upper c then upper_then_pct s' true else (c =? "%")%char && seen
  end.

(** The lookahead [(?=%[A-Z]+%)] at the start of [s]. *)
Definition header_ahead (s : string) : bool :=
  match s with
  | String c s' => (c =? "%")%char && upper_then_pct s' false
  | EmptyString => false
  end.

(** [re.split(r'\n(?=%[A-Z]+%)', s)]: every newline followed by a section
    header is a match (one character each, so the matches never
    overlap); the pieces between them, the first one apart. *)
Fixpoint re_split_first (s : string) : string * list string :=
  match s with
  | EmptyString => (EmptyString, [])
  | String c s' =>
      let (h, t) := re_split_first s' in
      if Regex.is_nl c && header_ahead s' then (EmptyString, h :: t) else (String c h, t)
  end.

Definition re_split (s : string) : list string :=
  let (h, t) := re_split_first s in h :: t.

(** [s.split("\n")], its first item apart ([items.pop(0)]). *)
Fixpoint split_first (s : string) : string * list string :=
  match s with
  | EmptyString => (EmptyString, [])
  | String c s' =>
      let (h, t) := split_first s' in
      if Regex.is_nl c then (EmptyString, h :: t) else (String c h, t)
  end.

(** [DuplicationError.section(file_path, name)]. *)
Inductive section_error := DuplicateSection (file_path name : string).

(** The loop of [Package.__read_sections_from] over the stripped pieces,
    [result] kept in insertion order. *)
Fixpoint collect (file_path : string) (raws : list string) (result : Sections) :
    section_error + Sections :=
  match raws with
  | [] => inr result
  | raw :: raws' =>
      let (nm, items) := split_first raw in
      match sections_get nm result with
      | Some _ => inl (DuplicateSection file_path nm)
      | None => collect file_path raws' (result ++ [(nm, items)])
      end
  end.

(** [Package.__read_sections_from] on the text of the file. *)
Definition read_sections_from (file_path text : string) : section_error + Sections :=
  collect file_path (map strip (re_split text)) [].

(** [s.splitlines()]: [cur] is the line read so far; [\r\n] is one
    boundary; no line follows a final boundary. *)
Fixpoint splitlines_aux (s cur : string) : list string :=
  match s with
  | EmptyString => if String.eqb cur EmptyString then [] else [cur]
  | String c s' =>
      if is_line_break c then
        if (c =? "013")%char then
          match s' with
          | String c' s'' =>
              if (c' =? "010")%char then cur :: splitlines_aux s'' EmptyString
              else cur :: splitlines_aux s' EmptyString
          | EmptyString => cur :: splitlines_aux s' EmptyString
          end
        else cur :: splitlines_aux s' EmptyString
      else splitlines_aux s' (cur ++ String c EmptyString)
  end.

Definition splitlines (s : string) : list string := splitlines_aux s EmptyString.

(** [UserWantsList(file_path).items] from the text of the file. *)
Definition wants_items (text : string) : list string :=
  filter (fun line => negb (String.eqb (strip line) EmptyString)) (splitlines text).

(** Layout of a [desc] file as pacman writes it: each section is its
    header line, its lines, and an empty line. *)
Definition line_join (h : string) (items : list string) : string :=
  h ++ String.concat EmptyString (map (fun i => String "010" i) items).

Definition render (secs : Sections) : string :=
  String.concat EmptyString (map (fun s => (line_join (fst s) (snd s) ++ String "010" (String "010" EmptyString))%string) secs).

(** A header [%[A-Z]+%] on its own. *)
Fixpoint upper_pct_end (s : string) (seen : bool) : bool :=
  match s with
  | EmptyString => false
  | String c s' =>
      if is_upper c then upper_pct_end s' true
      else (c =? "%")%char && seen && String.eqb s' EmptyString
  end.

Definition is_header (h : string) : bool :=
  match h with
  | String c s' => (c =? "%")%char && upper_pct_end s' false
  | EmptyString => false
  end.

Fixpoint has_line_break (s : string) : bool :=
  match s with
  | EmptyString => false
  | String c s' => is_line_break c || has_line_break s'
  end.

Fixpoint ends_nonspace (s : string) : bool :=
  match s with
  | EmptyString => false
  | String c EmptyString => negb (is_space c)
  | String _ s' => ends_nonspace s'
  end.

(** A section [render] lays out so that reading gives it back: a header,
    lines without newline that do not look like a header, and a last
    line (or the header) ending in a non-space. *)
Definition section_ok (s : string * list string) : bool :=
  is_header (fst s) &&
  forallb (fun i => negb (Regex.has_nl i) && negb (header_ahead i)) (snd s) &&
  ends_nonspace (last (snd s) (fst s)).

End Text.

(** The package a [LookupError d q] names as requiring [d]. *)
Definition lookup_culprit (st : Packages) (d q : string) : Prop :=
  exists k p, find_name k (by_name st) = Some p /\ name p = q /\ In d (depends p) /\
    find_name d (by_name st) = None /\ find_prov d (by_provides st) = None.

Lemma mark_wanted_idem (p : Package) : mark_wanted (mark_wanted p) = mark_wanted p.
Proof. destruct p; reflexivity. Qed.

Lemma mark_wanted_wanted (p : Package) : wanted (mark_wanted p) = true.
Proof. reflexivity. Qed.

Lemma le_entry_refl e : le_entry e e.
Proof. split; auto. Qed.

Lemma le_entry_trans e1 e2 e3 : le_entry e1 e2 -> le_entry e2 e3 -> le_entry e1 e3.
Proof.
  unfold le_entry; intros [H1 [H2|H2]] [H3 [H4|H4]]; split; try congruence;
    rewrite H4, H2; auto using mark_wanted_idem.
Qed.

Lemma Forall2_le_refl l : Forall2 le_entry l l.
Proof. induction l; constructor; auto using le_entry_refl. Qed.

Lemma Forall2_le_trans l1 l2 l3 :
  Forall2 le_entry l1 l2 -> Forall2 le_entry l2 l3 -> Forall2 le_entry l1 l3.
Proof.
  intros H; revert l3; induction H; intros l3 H'; inversion H'; subst;
    constructor; eauto using le_entry_trans.
Qed.

Lemma le_st_refl st : le_st st st.
Proof. split; auto using Forall2_le_refl. Qed.

Lemma le_st_trans s1 s2 s3 : le_st s1 s2 -> le_st s2 s3 -> le_st s1 s3.
Proof.
  intros [H1 H2] [H3 H4]; split; [congruence | eauto using Forall2_le_trans].
Qed.

Lemma set_wanted_le k l : Forall2 le_entry l (set_wanted k l).
Proof.
  induction l as [|[k' p] l IH]; simpl; [constructor|].
  destruct (String.eqb k' k); constructor; auto using Forall2_le_refl.
  - split; simpl; auto.
  - apply le_entry_refl.
Qed.

Lemma find_name_set_wanted k n l :
  find_name k (set_wanted n l) =
  option_map (fun p => if String.eqb k n then mark_wanted p else p) (find_name k l).
Proof.
  induction l as [|[k' p] l IH]; simpl; auto.
  destruct (String.eqb_spec k' n) as [->|Hn]; simpl.
  - destruct (String.eqb_spec n k) as [->|Hk]; simpl.
    + now rewrite String.eqb_refl.
    + destruct (String.eqb_spec k n); [congruence|].
      destruct (find_name k l); reflexivity.
  - destruct (String.eqb_spec k' k) as [->|Hk]; simpl; auto.
    destruct (String.eqb_spec k n); [congruence|reflexivity].
Qed.

Lemma find_name_le l l' k :
  Forall2 le_entry l l' ->
  match find_name k l with
  | None => find_name k l' = None
  | Some p => exists p', find_name k l' = Some p' /\ (p' = p \/ p' = mark_wanted p)
  end.
Proof.
  induction 1 as [|[k1 p1] [k2 p2] l l' [Hk Hp] _ IH]; simpl in *; auto.
  subst k2. destruct (String.eqb k1 k); eauto.
Qed.

Lemma le_is_wanted st st' k :
  le_st st st' -> is_wanted st k = true -> is_wanted st' k = true.
Proof.
  intros [_ H]; unfold is_wanted.
  pose proof (find_name_le _ _ k H) as Hf.
  destruct (find_name k (by_name st)) as [p|]; [|discriminate].
  destruct Hf as [p' [-> [->| ->]]]; auto.
Qed.

Lemma le_find_none st st' k :
  le_st st st' -> find_name k (by_name st) = None -> find_name k (by_name st') = None.
Proof.
  intros [_ H] Hn. pose proof (find_name_le _ _ k H) as Hf. now rewrite Hn in Hf.
Qed.

Lemma le_find_some st st' k p :
  le_st st st' -> find_name k (by_name st) = Some p ->
  exists p', find_name k (by_name st') = Some p'.
Proof.
  intros [_ H] Hn. pose proof (find_name_le _ _ k H) as Hf. rewrite Hn in Hf.
  destruct Hf as [p' [Hp' _]]; eauto.
Qed.

Lemma count_le l l' : Forall2 le_entry l l' -> count_unwanted l' <= count_unwanted l.
Proof.
  unfold count_unwanted.
  induction 1 as [|[k1 p1] [k2 p2] l l' [Hk [Hp|Hp]] _ IH]; simpl in *; auto;
    subst p2; [destruct (wanted p1); simpl; lia|].
  destruct (wanted p1); simpl; lia.
Qed.

Lemma count_set_wanted k l p :
  find_name k l = Some p -> wanted p = false ->
  count_unwanted (set_wanted k l) < count_unwanted l.
Proof.
  unfold count_unwanted.
  induction l as [|[k' q] l IH]; simpl; [discriminate|].
  destruct (String.eqb k' k); intros Hf Hw.
  - injection Hf as ->. simpl. rewrite Hw. simpl.
    pose proof (count_le l l (Forall2_le_refl l)). lia.
  - simpl. destruct (wanted q); simpl; specialize (IH Hf Hw); lia.
Qed.

Lemma length_le l l' : Forall2 le_entry l l' -> List.length l' = List.length l.
Proof. induction 1; simpl; auto. Qed.

(* ------------------------------------------------------------------ *)
(** ** Properties of computations, closed under the monad *)

Section Combinators.

Context {A B : Type}.

Lemma pres_ret (a : A) : pres (ret a).
Proof. intro; apply le_st_refl. Qed.

Lemma pres_raise e : pres (@raise A e).
Proof. intro; apply le_st_refl. Qed.

Lemma pres_bind (m : M A) (k : A -> M B) :
  pres m -> (forall a, pres (k a)) -> pres (bind m k).
Proof.
  intros Hm Hk st; unfold bind; specialize (Hm st).
  destruct (m st) as [a s|e s]; simpl in *; auto.
  eapply le_st_trans; [exact Hm|apply Hk].
Qed.

Lemma safe_ret c (a : A) : safe c (ret a).
Proof. intros st st' _; discriminate. Qed.

Lemma safe_raise c e : e <> OutOfFuel -> safe c (@raise A e).
Proof. intros He st st' _ H; injection H; auto. Qed.

Lemma safe_bind c (m : M A) (k : A -> M B) :
  pres m -> safe c m -> (forall a, safe c (k a)) -> safe c (bind m k).
Proof.
  intros Hp Hm Hk st st' Hc; unfold bind.
  specialize (Hp st); specialize (Hm st).
  destruct (m st) as [a s|e s] eqn:E; simpl in *.
  - apply Hk. destruct Hp as [_ Hp]. pose proof (count_le _ _ Hp). lia.
  - intro H; injection H as He Hs; subst; eapply Hm; [exact Hc|]; try exact E; reflexivity.
Qed.

Lemma errs_ret (a : A) : errs_lookup (ret a).
Proof. intros st e st' H; discriminate. Qed.

Lemma errs_lookup_error d q : errs_lookup (@raise A (LookupError d q)).
Proof. intros st e st' H; injection H as <- _; eauto. Qed.

Lemma errs_bind (m : M A) (k : A -> M B) :
  errs_lookup m -> (forall a, errs_lookup (k a)) -> errs_lookup (bind m k).
Proof.
  intros Hm Hk st e st'; unfold bind.
  destruct (m st) as [a s|e' s] eqn:E; [apply Hk|].
  intro H; injection H as -> ->; eauto.
Qed.

End Combinators.

Lemma pres_for_each {A} (body : A -> M unit) l :
  (forall x, pres (body x)) -> pres (for_each body l).
Proof.
  intro Hb; induction l; simpl; [apply pres_ret|].
  apply pres_bind; auto.
Qed.

Lemma safe_for_each {A} c (body : A -> M unit) l :
  (forall x, pres (body x)) -> (forall x, safe c (body x)) -> safe c (for_each body l).
Proof.
  intros Hp Hs; induction l; simpl; [apply safe_ret|].
  apply safe_bind; auto.
Qed.

Lemma errs_for_each {A} (body : A -> M unit) l :
  (forall x, errs_lookup (body x)) -> errs_lookup (for_each body l).
Proof.
  intro Hb; induction l; simpl; [apply errs_ret|].
  apply errs_bind; auto.
Qed.


(** Every element of the list is run by the loop, from a state after the
    start and into a state before the end. *)
Lemma for_each_in {A} (body : A -> M unit) l x st st' :
  (forall y, pres (body y)) ->
  for_each body l st = Ok tt st' -> In x l ->
  exists s1 s2, le_st st s1 /\ body x s1 = Ok tt s2 /\ le_st s2 st'.
Proof.
  intros Hp; revert st; induction l as [|y l IH]; intros st Hr Hin; [destruct Hin|].
  simpl in Hr; unfold bind in Hr.
  destruct (body y st) as [[] s|e s] eqn:E; [|discriminate].
  destruct Hin as [->|Hin].
  - exists st, s; split; [apply le_st_refl|split; [exact E|]].
    pose proof (pres_for_each body l Hp s) as H; rewrite Hr in H; exact H.
  - destruct (IH s Hr Hin) as [s1 [s2 [H1 H2]]].
    exists s1, s2; split; auto.
    eapply le_st_trans; [|exact H1].
    specialize (Hp y st); rewrite E in Hp; exact Hp.
Qed.

(* ------------------------------------------------------------------ *)
(** ** [mark_wanted_by_name]: effects, errors and fuel *)

Section ByProvided.

Variable rec : string -> M bool.

Lemma pres_mwbp v : (forall n, pres (rec n)) -> pres (mark_wanted_by_provided rec v).
Proof.
  intros Hr st; unfold mark_wanted_by_provided.
  destruct (find_prov v (by_provides st)) as [ns|]; [|apply le_st_refl].
  refine (pres_bind _ _ _ _ st).
  - apply pres_for_each; intro; apply pres_bind; [apply Hr|intro; apply pres_ret].
  - intro; apply pres_ret.
Qed.

Lemma safe_mwbp c v :
  (forall n, pres (rec n)) -> (forall n, safe c (rec n)) ->
  safe c (mark_wanted_by_provided rec v).
Proof.
  intros Hp Hs st st' Hc; unfold mark_wanted_by_provided.
  destruct (find_prov v (by_provides st)) as [ns|]; [|discriminate].
  refine (safe_bind c _ _ _ _ _ st st' Hc).
  - apply pres_for_each; intro; apply pres_bind; [apply Hp|intro; apply pres_ret].
  - apply safe_for_each.
    + intro; apply pres_bind; [apply Hp|intro; apply pres_ret].
    + intro; apply safe_bind; [apply Hp|apply Hs|intro; apply safe_ret].
  - intro; apply safe_ret.
Qed.

Lemma errs_mwbp v : (forall n, errs_lookup (rec n)) -> errs_lookup (mark_wanted_by_provided rec v).
Proof.
  intros He st e st'; unfold mark_wanted_by_provided.
  destruct (find_prov v (by_provides st)) as [ns|]; [|discriminate].
  apply errs_bind.
  - apply errs_for_each; intro; apply errs_bind; [apply He|intro; apply errs_ret].
  - intro; apply errs_ret.
Qed.

Lemma pres_satisfy package d : (forall n, pres (rec n)) -> pres (satisfy_dep rec package d).
Proof.
  intro Hp; unfold satisfy_dep.
  apply pres_bind; [apply Hp|intros [|]; [apply pres_ret|]].
  apply pres_bind; [apply pres_mwbp; apply Hp|intros [|]; [apply pres_ret|apply pres_raise]].
Qed.

Lemma safe_satisfy c package d :
  (forall n, pres (rec n)) -> (forall n, safe c (rec n)) ->
  safe c (satisfy_dep rec package d).
Proof.
  intros Hp Hs; unfold satisfy_dep.
  apply safe_bind; [apply Hp|apply Hs|intros [|]; [apply safe_ret|]].
  apply safe_bind; [apply pres_mwbp; apply Hp| |].
  - apply safe_mwbp; assumption.
  - intros [|]; [apply safe_ret|apply safe_raise; discriminate].
Qed.

Lemma errs_satisfy package d :
  (forall n, errs_lookup (rec n)) -> errs_lookup (satisfy_dep rec package d).
Proof.
  intro He; unfold satisfy_dep.
  apply errs_bind; [apply He|intros [|]; [apply errs_ret|]].
  apply errs_bind; [apply errs_mwbp; apply He|].
  intros [|]; [apply errs_ret|apply errs_lookup_error].
Qed.

End ByProvided.

Lemma le_marked n st : le_st st (marked n st).
Proof. split; [reflexivity|apply set_wanted_le]. Qed.

Lemma pres_mark f n : pres (mark_wanted_by_name_f f n).
Proof.
  revert n; induction f as [|f IH]; intros n st; simpl; [apply le_st_refl|].
  destruct (find_name n (by_name st)) as [p|]; [|apply le_st_refl].
  destruct (wanted p); [apply le_st_refl|].
  apply le_st_trans with (s2 := marked n st); [apply le_marked|].
  refine (pres_bind _ _ _ _ _); [|intro; apply pres_ret].
  apply pres_for_each; intro d; apply pres_satisfy; apply IH.
Qed.

Lemma errs_mark f n : errs_lookup (mark_wanted_by_name_f f n).
Proof.
  revert n; induction f as [|f IH]; intros n st e st'; simpl.
  - intro H; injection H as <- _; auto.
  - destruct (find_name n (by_name st)) as [p|]; [|discriminate].
    destruct (wanted p); [discriminate|].
    apply errs_bind; [|intro; apply errs_ret].
    apply errs_for_each; intro d; apply errs_satisfy; apply IH.
Qed.

(** Fuel above the number of unwanted packages is never exhausted. *)
Lemma safe_mark f n c : c < f -> safe c (mark_wanted_by_name_f f n).
Proof.
  revert n c; induction f as [|f IH]; intros n c Hc st st' Hst; [lia|]; simpl.
  destruct (find_name n (by_name st)) as [p|] eqn:F; [|discriminate].
  destruct (wanted p) eqn:W; [discriminate|].
  pose proof (count_set_wanted n (by_name st) p F W) as Hlt.
  set (c1 := count_unwanted (by_name (marked n st))).
  assert (Hc1 : c1 < f) by (unfold c1, marked; simpl; lia).
  refine (safe_bind c1 _ _ _ _ _ (marked n st) st' (le_n _)).
  - apply pres_for_each; intro d; apply pres_satisfy; apply pres_mark.
  - apply safe_for_each.
    + intro d; apply pres_satisfy; apply pres_mark.
    + intro d; apply safe_satisfy; [apply pres_mark|intro; apply IH; exact Hc1].
  - intro; apply safe_ret.
Qed.

Lemma count_le_length l : count_unwanted l <= List.length l.
Proof.
  unfold count_unwanted; induction l as [|[k p] l IH]; simpl; auto.
  destruct (wanted p); simpl; lia.
Qed.

Lemma mark_no_fuel_error n st st' : mark_wanted_by_name n st <> Raise OutOfFuel st'.
Proof.
  unfold mark_wanted_by_name.
  apply (safe_mark _ n (List.length (by_name st))); [lia|apply count_le_length].
Qed.

Lemma bind_ok {A B} (m : M A) (k : A -> M B) st b st' :
  bind m k st = Ok b st' -> exists a s, m st = Ok a s /\ k a s = Ok b st'.
Proof. unfold bind; destruct (m st); [eauto|discriminate]. Qed.

Lemma then_ret_true {A} (m : M A) st b st' :
  (m ;; ret true) st = Ok b st' -> b = true /\ exists a, m st = Ok a st'.
Proof.
  intro H; apply bind_ok in H as [a [s [H1 H2]]].
  injection H2 as <- <-; eauto.
Qed.

Lemma find_name_in k l p : find_name k l = Some p -> In (k, p) l.
Proof.
  induction l as [|[k' q] l IH]; simpl; [discriminate|].
  destruct (String.eqb_spec k' k) as [E|]; [intro H; injection H as E'; subst; auto|auto].
Qed.

Lemma find_name_length k l p : find_name k l = Some p -> 1 <= List.length l.
Proof. destruct l; simpl; [discriminate|lia]. Qed.

Lemma find_name_two a b l pa pb :
  a <> b -> find_name a l = Some pa -> find_name b l = Some pb -> 2 <= List.length l.
Proof.
  intro Hab; induction l as [|[k q] l IH]; simpl; [discriminate|].
  destruct (String.eqb_spec k a) as [Ha|Ha]; destruct (String.eqb_spec k b) as [Hb|Hb];
    subst; try congruence; intros H1 H2.
  - pose proof (find_name_length _ _ _ H2); lia.
  - pose proof (find_name_length _ _ _ H1); lia.
  - specialize (IH H1 H2); lia.
Qed.

Lemma mark_f_not_found f n st :
  find_name n (by_name st) = None -> mark_wanted_by_name_f (S f) n st = Ok false st.
Proof. intro H; simpl; now rewrite H. Qed.

(** A call on a stored package that returns has marked it wanted. *)
Lemma mark_f_found_ok f n st p b st' :
  find_name n (by_name st) = Some p ->
  mark_wanted_by_name_f f n st = Ok b st' -> b = true /\ is_wanted st' n = true.
Proof.
  destruct f as [|f]; simpl; [discriminate|].
  intros F; rewrite F. destruct (wanted p) eqn:W.
  - intro H; injection H as <- <-; unfold is_wanted; rewrite F; auto.
  - intro H. pose proof (pres_bind _ _ (pres_for_each _ (depends p)
      (fun d => pres_satisfy _ p d (pres_mark f))) (fun _ => pres_ret true) (marked n st)) as Hp.
    rewrite H in Hp; simpl in Hp.
    apply then_ret_true in H as [-> _]; split; auto.
    apply (le_is_wanted (marked n st)); auto.
    unfold is_wanted, marked; simpl.
    rewrite find_name_set_wanted, F, String.eqb_refl; reflexivity.
Qed.

Lemma find_marked k n st :
  find_name k (by_name (marked n st)) =
  option_map (fun p => if String.eqb k n then mark_wanted p else p) (find_name k (by_name st)).
Proof. apply find_name_set_wanted. Qed.

Lemma find_marked_other k n st : k <> n -> find_name k (by_name (marked n st)) = find_name k (by_name st).
Proof.
  intro H; rewrite find_marked. destruct (String.eqb_spec k n); [congruence|].
  destruct (find_name k (by_name st)); reflexivity.
Qed.

Lemma find_marked_same n st p :
  find_name n (by_name st) = Some p -> find_name n (by_name (marked n st)) = Some (mark_wanted p).
Proof. intro H; rewrite find_marked, H, String.eqb_refl; reflexivity. Qed.

Lemma bind_Ok {A B} (m : M A) (k : A -> M B) st a s :
  m st = Ok a s -> bind m k st = k a s.
Proof. unfold bind; intros ->; reflexivity. Qed.

Lemma for_each_one {A} (body : A -> M unit) x st :
  for_each body [x] st = (body x ;; ret tt) st.
Proof. reflexivity. Qed.

Lemma satisfy_dep_found rec package d st s :
  rec d st = Ok true s -> satisfy_dep rec package d st = Ok tt s.
Proof. intro H; unfold satisfy_dep; rewrite (bind_Ok _ _ _ _ _ H); reflexivity. Qed.

Lemma mark_f_wanted f n st p :
  find_name n (by_name st) = Some p -> wanted p = true ->
  mark_wanted_by_name_f (S f) n st = Ok true st.
Proof. intros F W; simpl; now rewrite F, W. Qed.

Lemma mark_f_unwanted f n st p :
  find_name n (by_name st) = Some p -> wanted p = false ->
  mark_wanted_by_name_f (S f) n st =
  (for_each (satisfy_dep (mark_wanted_by_name_f f) p) (depends p) ;; ret true) (marked n st).
Proof. intros F W; simpl; now rewrite F, W. Qed.

(* ------------------------------------------------------------------ *)
(** ** The claims *)

(** C10: a call of [mark_wanted_by_name] that returns [false] leaves the
    graph exactly as it was: no flag is set by such a call. *)
Theorem mark_false_unchanged n st st' :
  mark_wanted_by_name n st = Ok false st' -> st' = st.
Proof.
  unfold mark_wanted_by_name; simpl.
  destruct (find_name n (by_name st)) as [p|]; [|congruence].
  destruct (wanted p); [congruence|].
  intro H; apply then_ret_true in H as [H _]; discriminate.
Qed.

(** C5: calling [mark_wanted_by_name n] again right after a call that
    returned [b] returns [b] again and changes nothing, so the wanted set
    is that of the single call. *)
Theorem mark_idempotent n st b st1 :
  mark_wanted_by_name n st = Ok b st1 -> mark_wanted_by_name n st1 = Ok b st1.
Proof.
  unfold mark_wanted_by_name.
  destruct (find_name n (by_name st)) as [p|] eqn:F.
  - intro H. destruct (mark_f_found_ok _ _ _ _ _ _ F H) as [-> W].
    simpl. unfold is_wanted in W.
    destruct (find_name n (by_name st1)) as [q|]; [now rewrite W|discriminate].
  - simpl; rewrite F; intro H; injection H as <- <-; simpl; now rewrite F.
Qed.

(** C1 (amended): [mark_wanted_by_name n] looks [n] up in [by_name] only:
    a name that is not a package name gives [false] with the graph
    unchanged, even when some package provides it; a package name never
    gives [false]. *)
Theorem mark_by_name_only n st :
  (find_name n (by_name st) = None -> mark_wanted_by_name n st = Ok false st) /\
  (find_name n (by_name st) <> None ->
     forall b st', mark_wanted_by_name n st = Ok b st' -> b = true).
Proof.
  split.
  - intro H; unfold mark_wanted_by_name; apply mark_f_not_found; exact H.
  - intros H b st' Hm. destruct (find_name n (by_name st)) as [p|] eqn:F; [|congruence].
    exact (proj1 (mark_f_found_ok _ _ _ _ _ _ F Hm)).
Qed.

(** Two packages depending on each other: marking the first one returns
    [true] and marks both. *)
Lemma mark_cycle st a b pa pb :
  a <> b ->
  find_name a (by_name st) = Some pa -> find_name b (by_name st) = Some pb ->
  depends pa = [b] -> depends pb = [a] -> wanted pa = false ->
  exists st', mark_wanted_by_name a st = Ok true st' /\
              is_wanted st' a = true /\ is_wanted st' b = true.
Proof.
  intros Hab Fa Fb Da Db Wa.
  pose proof (find_name_two _ _ _ _ _ Hab Fa Fb) as L.
  unfold mark_wanted_by_name.
  destruct (List.length (by_name st)) as [|[|k]]; [lia|lia|].
  assert (Fb1 : find_name b (by_name (marked a st)) = Some pb)
    by (rewrite find_marked_other; auto).
  assert (Fa1 : find_name a (by_name (marked a st)) = Some (mark_wanted pa))
    by (apply find_marked_same; exact Fa).
  rewrite (mark_f_unwanted _ _ _ _ Fa Wa), Da.
  destruct (wanted pb) eqn:Wb.
  - exists (marked a st).
    rewrite (bind_Ok _ _ _ tt (marked a st)); [unfold is_wanted; rewrite Fa1, Fb1; auto|].
    rewrite for_each_one. erewrite bind_Ok; [reflexivity|].
    apply satisfy_dep_found. apply (mark_f_wanted _ _ _ _ Fb1 Wb).
  - set (s2 := marked b (marked a st)).
    assert (Fa2 : find_name a (by_name s2) = Some (mark_wanted pa))
      by (unfold s2; rewrite find_marked_other; auto).
    assert (Fb2 : find_name b (by_name s2) = Some (mark_wanted pb))
      by (apply find_marked_same; exact Fb1).
    exists s2.
    rewrite (bind_Ok _ _ _ tt s2); [unfold is_wanted; rewrite Fa2, Fb2; auto|].
    rewrite for_each_one. erewrite bind_Ok; [reflexivity|].
    apply satisfy_dep_found.
    rewrite (mark_f_unwanted _ _ _ _ Fb1 Wb), Db.
    erewrite bind_Ok; [reflexivity|].
    rewrite for_each_one. erewrite bind_Ok; [reflexivity|].
    apply satisfy_dep_found.
    apply (mark_f_wanted _ _ _ _ Fa2); reflexivity.
Qed.

(** C4: [mark_wanted_by_name] always terminates within its recursion
    bound (the fuel is never exhausted, on any graph, cyclic or not), and
    on two packages A and B depending on each other, marking A returns
    [true] without error and marks both. *)
Theorem mark_terminates :
  (forall n st st', mark_wanted_by_name n st <> Raise OutOfFuel st') /\
  (forall st a b pa pb,
     a <> b ->
     find_name a (by_name st) = Some pa -> find_name b (by_name st) = Some pb ->
     depends pa = [b] -> depends pb = [a] -> wanted pa = false ->
     exists st', mark_wanted_by_name a st = Ok true st' /\
                 is_wanted st' a = true /\ is_wanted st' b = true).
Proof. split; [apply mark_no_fuel_error|apply mark_cycle]. Qed.







(** C3 (amended): in a graph built by [add], if package [Y] is not wanted
    yet and depends on [V], no package is named [V] and package [X]
    provides [V], then a call [mark_wanted_by_name Y] that completes
    without error returns [true] and leaves both [Y] and [X] wanted.  (It
    raises instead when another dependency met by the traversal is
    unresolvable.) *)
Theorem mark_alias_dependency st y py v x px b st' :
  wf st ->
  find_name y (by_name st) = Some py -> wanted py = false -> In v (depends py) ->
  find_name v (by_name st) = None ->
  find_name x (by_name st) = Some px -> In v (provides px) ->
  mark_wanted_by_name y st = Ok b st' ->
  b = true /\ is_wanted st' y = true /\ is_wanted st' x = true.
Proof.
  intros [_ [_ Wp]] Fy Wy Hv Fv Fx Px H.
  destruct (mark_f_found_ok _ _ _ _ _ _ Fy H) as [-> Wy'].
  split; [reflexivity|split; [exact Wy'|]].
  unfold mark_wanted_by_name in H.
  pose proof (find_name_length _ _ _ Fy) as L.
  destruct (List.length (by_name st)) as [|k]; [lia|].
  rewrite (mark_f_unwanted _ _ _ _ Fy Wy) in H.
  apply then_ret_true in H as [_ [[] Hfe]].
  destruct (for_each_in _ _ v _ _
              (fun d => pres_satisfy _ py d (pres_mark (S k))) Hfe Hv) as [s1 [s2 [Le1 [Hs Le2]]]].
  pose proof (le_st_trans _ _ _ (le_marked y st) Le1) as Le1'.
  unfold satisfy_dep in Hs.
  apply bind_ok in Hs as [b1 [s3 [H1 H2]]].
  rewrite (mark_f_not_found _ _ _ (le_find_none _ _ _ Le1' Fv)) in H1.
  injection H1 as <- <-. cbv beta iota in H2.
  apply bind_ok in H2 as [b2 [s4 [H3 H4]]].
  destruct (Wp x px v (find_name_in _ _ _ Fx) Px) as [ns [Pv Hx]].
  unfold mark_wanted_by_provided in H3.
  destruct Le1' as [Prov Le1'']. rewrite Prov, Pv in H3.
  apply then_ret_true in H3 as [-> [[] H3]].
  injection H4 as <-.
  destruct (for_each_in _ _ x _ _
              (fun n => pres_bind _ _ (pres_mark (S k) n) (fun _ => pres_ret tt)) H3 Hx)
    as [s5 [s6 [Le3 [Hs5 Le4]]]].
  apply bind_ok in Hs5 as [b3 [s7 [H5 H6]]].
  injection H6 as <-.
  assert (Le5 : le_st st s5) by (eapply le_st_trans; [|exact Le3]; split; assumption).
  destruct (le_find_some _ _ _ _ Le5 Fx) as [px' Fx'].
  destruct (mark_f_found_ok _ _ _ _ _ _ Fx' H5) as [_ Wx].
  apply (le_is_wanted s7); [|exact Wx].
  eapply le_st_trans; [exact Le4|exact Le2].
Qed.

(** C6: adding a package whose name is already stored raises
    [DuplicationError] before any mutation: the graph is unchanged, the
    first package is still the one stored under the name, and
    [by_provides] gains nothing. *)
Theorem add_duplicate st p q :
  find_name (name p) (by_name st) = Some q ->
  add p st = Raise (DuplicationError (name p)) st /\
  find_name (name p) (by_name (st_of (add p st))) = Some q /\
  by_provides (st_of (add p st)) = by_provides st.
Proof. intro H; unfold add; rewrite H; simpl; auto. Qed.

Lemma span_dot_no_nl r : Regex.has_nl r = false -> Regex.span_dot r = (r, EmptyString).
Proof.
  induction r as [|c r IH]; simpl; auto.
  destruct (Regex.is_nl c); [discriminate|]. intro H; now rewrite IH.
Qed.

Lemma dotplus_dollar_no_nl r :
  Regex.has_nl r = false -> r <> EmptyString -> Regex.dotplus_dollar r = Some EmptyString.
Proof.
  intros H Hne; unfold Regex.dotplus_dollar; rewrite span_dot_no_nl by exact H.
  destruct r; [congruence|reflexivity].
Qed.

Lemma sub_aux_empty f : Regex.sub_aux f EmptyString = EmptyString.
Proof. destruct f; reflexivity. Qed.

Lemma sub_aux_no_nl s f :
  String.length s < f -> Regex.has_nl s = false -> Regex.sub_aux f s = Regex.strip_rule s.
Proof.
  revert f; induction s as [|c s IH]; intros f Hf Hn; [apply sub_aux_empty|].
  destruct f as [|f]; [simpl in Hf; lia|].
  simpl in Hn. destruct (Regex.is_nl c) eqn:Nc; [discriminate|].
  cbn [Regex.sub_aux Regex.strip_rule]. unfold Regex.match_at.
  destruct (Regex.is_cmp c) eqn:Cc.
  - destruct s as [|c2 s2].
    + simpl. now rewrite sub_aux_empty.
    + assert (Hs : Regex.dotplus_dollar (String c2 s2) = Some EmptyString)
        by (apply dotplus_dollar_no_nl; [exact Hn|discriminate]).
      destruct (Regex.is_cmp c2).
      * simpl in Hn. destruct (Regex.is_nl c2); [discriminate|].
        destruct s2 as [|c3 s3].
        -- simpl. rewrite Hs. apply sub_aux_empty.
        -- rewrite dotplus_dollar_no_nl by (auto; discriminate). apply sub_aux_empty.
      * rewrite Hs. apply sub_aux_empty.
  - f_equal. apply IH; [simpl in Hf; lia|exact Hn].
Qed.

(** [Regex.sub] on a line: cut at the first comparator when some
    character follows it. *)
Lemma sub_no_nl s : Regex.has_nl s = false -> Regex.sub s = Regex.strip_rule s.
Proof. intro H; unfold Regex.sub; apply sub_aux_no_nl; [lia|exact H]. Qed.

(** C7 (amended): construction rewrites each entry of the [%DEPENDS%]
    and [%PROVIDES%] sections (lines, so without newline) by cutting it
    at its first comparator character ([<], [>] or [=]) through the end,
    provided at least one character follows that comparator; an entry
    whose first comparator is its last character is kept as it is.  In
    particular ["foo>=1.2.3"] is stored as ["foo"]. *)
Theorem init_strips_versions path sections p :
  Forall (fun s => Regex.has_nl s = false) (get_or_nil SECTION_DEPENDS sections) ->
  Forall (fun s => Regex.has_nl s = false) (get_or_nil SECTION_PROVIDES sections) ->
  Package_init path sections = Some p ->
  depends p = map Regex.strip_rule (get_or_nil SECTION_DEPENDS sections) /\
  provides p = map Regex.strip_rule (get_or_nil SECTION_PROVIDES sections) /\
  strip_versions ["foo>=1.2.3"] = strip_versions ["foo"].
Proof.
  intros Hd Hp Hi; unfold Package_init in Hi.
  destruct (first_line SECTION_NAME sections); [|discriminate].
  destruct (first_line SECTION_VERSION sections); [|discriminate].
  destruct (first_line SECTION_DESC sections); [|discriminate].
  injection Hi as <-; simpl. unfold strip_versions.
  split; [|split; [|reflexivity]]; apply map_ext_in; intros e He; apply sub_no_nl.
  - exact (proj1 (Forall_forall _ _) Hd e He).
  - exact (proj1 (Forall_forall _ _) Hp e He).
Qed.

(* ------------------------------------------------------------------ *)
(** ** Graphs built by [add] *)

Lemma find_prov_append v w n l :
  find_prov v (prov_append w n l) =
  if String.eqb w v
  then Some (match find_prov v l with Some ns => ns ++ [n] | None => [n] end)
  else find_prov v l.
Proof.
  induction l as [|[k ns] l IH]; simpl.
  - destruct (String.eqb w v); reflexivity.
  - destruct (String.eqb_spec k w) as [->|Hkw]; simpl.
    + destruct (String.eqb w v); reflexivity.
    + rewrite IH. destruct (String.eqb_spec k v) as [->|Hkv]; auto.
      destruct (String.eqb_spec w v); [congruence|reflexivity].
Qed.

Lemma prov_append_keeps v w n l ns k :
  find_prov v l = Some ns -> In k ns ->
  exists ns', find_prov v (prov_append w n l) = Some ns' /\ In k ns'.
Proof.
  intros H Hk; rewrite find_prov_append, H.
  destruct (String.eqb w v); eexists; split; eauto using in_or_app.
Qed.

Lemma fold_prov_keeps provs n l v ns k :
  find_prov v l = Some ns -> In k ns ->
  exists ns', find_prov v (fold_left (fun acc w => prov_append w n acc) provs l) = Some ns' /\
              In k ns'.
Proof.
  revert l ns; induction provs as [|w provs IH]; intros l ns H Hk; simpl; eauto.
  destruct (prov_append_keeps v w n l ns k H Hk) as [ns' [H' Hk']]; eauto.
Qed.

Lemma fold_prov_adds provs n l v :
  In v provs ->
  exists ns, find_prov v (fold_left (fun acc w => prov_append w n acc) provs l) = Some ns /\
             In n ns.
Proof.
  revert l; induction provs as [|w provs IH]; intros l Hv; [destruct Hv|simpl].
  destruct Hv as [->|Hv]; [|now apply IH].
  assert (H : exists ns, find_prov v (prov_append v n l) = Some ns /\ In n ns).
  { rewrite find_prov_append, String.eqb_refl.
    destruct (find_prov v l); eexists; split; eauto using in_or_app, in_eq. }
  destruct H as [ns [H Hn]]. apply (fold_prov_keeps _ _ _ _ _ _ H Hn).
Qed.

Lemma find_name_none_notin k l : find_name k l = None -> ~ In k (map fst l).
Proof.
  induction l as [|[k' p] l IH]; simpl; auto.
  destruct (String.eqb_spec k' k); [discriminate|]. intros H [E|Hin]; [congruence|exact (IH H Hin)].
Qed.

Lemma add_ok p st st' :
  add p st = Ok tt st' ->
  find_name (name p) (by_name st) = None /\
  st' = {| by_name := by_name st ++ [(name p, p)];
           by_provides := fold_left (fun acc provided => prov_append provided (name p) acc)
                            (provides p) (by_provides st) |}.
Proof.
  unfold add; destruct (find_name (name p) (by_name st)); [discriminate|].
  intro H; injection H as <-; auto.
Qed.

Lemma wf_empty : wf empty.
Proof. repeat split; simpl; auto using NoDup_nil; intros k p v []. Qed.

Lemma wf_add p st st' : wf st -> add p st = Ok tt st' -> wf st'.
Proof.
  intros [Hnd [Hnm Hpv]] H; apply add_ok in H as [Hf ->].
  repeat split; simpl.
  - rewrite map_app; simpl. apply NoDup_app; auto using NoDup_cons, NoDup_nil.
    intros x Hx [<-|[]]. exact (find_name_none_notin _ _ Hf Hx).
  - apply Forall_app; split; auto.
  - intros k q v Hin Hv. apply in_app_or in Hin as [Hin|[E|[]]].
    + destruct (Hpv k q v Hin Hv) as [ns [H1 H2]].
      exact (fold_prov_keeps _ _ _ _ _ _ H1 H2).
    + injection E as <- <-. now apply fold_prov_adds.
Qed.

Lemma build_wf ps st st' : wf st -> build ps st = Ok tt st' -> wf st'.
Proof.
  revert st; induction ps as [|p ps IH]; intros st Hw H; simpl in H.
  - injection H as <-; exact Hw.
  - apply bind_ok in H as [[] [s [H1 H2]]]. exact (IH s (wf_add _ _ _ Hw H1) H2).
Qed.

Lemma build_by_name ps st st' :
  build ps st = Ok tt st' -> by_name st' = by_name st ++ map (fun p => (name p, p)) ps.
Proof.
  revert st; induction ps as [|p ps IH]; intros st H; simpl in H.
  - injection H as <-; simpl; now rewrite app_nil_r.
  - apply bind_ok in H as [[] [s [H1 H2]]]. apply add_ok in H1 as [_ ->].
    rewrite (IH _ H2); simpl. now rewrite <- app_assoc.
Qed.

Lemma Forall2_le_fst l l' : Forall2 le_entry l l' -> map fst l' = map fst l.
Proof. induction 1 as [|x y l l' [Hk _] _ IH]; simpl; congruence. Qed.

Lemma Forall2_in_r {X Y} (R : X -> Y -> Prop) l l' y :
  Forall2 R l l' -> In y l' -> exists x, In x l /\ R x y.
Proof.
  induction 1 as [|x y' l l' Hr _ IH]; intro Hin; [destruct Hin|].
  destruct Hin as [E|Hin]; [subst; eauto using in_eq|].
  destruct (IH Hin) as [x' [H1 H2]]; eauto using in_cons.
Qed.

Lemma wf_le st st' : wf st -> le_st st st' -> wf st'.
Proof.
  intros [Hnd [Hnm Hpv]] [Hp Hl]. repeat split.
  - now rewrite (Forall2_le_fst _ _ Hl).
  - apply Forall_forall; intros [k q] Hin.
    destruct (Forall2_in_r _ _ _ _ Hl Hin) as [[k0 p0] [Hin0 [Hk [E|E]]]]; simpl in *; subst;
      exact (proj1 (Forall_forall _ _) Hnm _ Hin0).
  - intros k q v Hin Hv. rewrite Hp.
    destruct (Forall2_in_r _ _ _ (k, q) Hl Hin) as [[k0 p0] [Hin0 [Hk [E|E]]]]; simpl in *;
      subst; apply (Hpv _ p0 _ Hin0); destruct p0; exact Hv.
Qed.

Lemma find_name_app k l1 l2 :
  find_name k (l1 ++ l2) =
  match find_name k l1 with Some p => Some p | None => find_name k l2 end.
Proof.
  induction l1 as [|[k' p] l1 IH]; simpl; auto.
  destruct (String.eqb k' k); auto.
Qed.

Lemma unwanted_names l :
  NoDup (map fst l) -> Forall (fun kp => name (snd kp) = fst kp) l ->
  map name (map snd (filter (fun kp => negb (wanted (snd kp))) l)) =
  filter (fun n => negb (match find_name n l with Some p => wanted p | None => false end))
         (map fst l).
Proof.
  induction l as [|[k p] l IH]; intros Hnd Hnm; simpl; auto.
  inversion Hnd as [|? ? Hk Hnd']; subst.
  assert (Hn : name p = k) by (inversion Hnm; auto).
  assert (Hnm' : Forall (fun kp => name (snd kp) = fst kp) l) by (inversion Hnm; auto).
  rewrite String.eqb_refl.
  assert (E : filter (fun n => negb (match (if String.eqb k n then Some p else find_name n l) with
                                      | Some p0 => wanted p0 | None => false end)) (map fst l) =
              filter (fun n => negb (match find_name n l with Some p0 => wanted p0 | None => false end))
                (map fst l)).
  { apply filter_ext_in; intros n Hin. destruct (String.eqb_spec k n); [subst; contradiction|auto]. }
  rewrite E, <- IH by assumption.
  destruct (wanted p); simpl; [reflexivity|now rewrite Hn].
Qed.

Lemma in_unwanted l p :
  Forall (fun kp => name (snd kp) = fst kp) l ->
  In p (map snd (filter (fun kp => negb (wanted (snd kp))) l)) <->
  In (name p, p) l /\ wanted p = false.
Proof.
  intro Hnm; rewrite in_map_iff; split.
  - intros [[k q] [Eq Hin]]; simpl in Eq; subst q.
    apply filter_In in Hin as [Hin Hw].
    assert (E : name p = k) by exact (proj1 (Forall_forall _ _) Hnm _ Hin). rewrite E; simpl in Hw.
    split; [exact Hin|now destruct (wanted p)].
  - intros [Hin Hw]. exists (name p, p); split; [reflexivity|].
    apply filter_In; split; [exact Hin|simpl; now rewrite Hw].
Qed.

Lemma run_marks_le ns st : le_st st (run_ops (map OpMarkWantedByName ns) st).
Proof.
  revert st; induction ns as [|n ns IH]; intro st; simpl; [apply le_st_refl|].
  eapply le_st_trans; [|apply IH]. apply pres_mark.
Qed.

(** C8: [get_unwanted] lists the stored packages whose flag is false, in
    the order they were added: right after the graph is built from
    packages [ps] (constructed unwanted) it returns [ps] itself, and after
    any sequence of [mark_wanted_by_name] calls it returns exactly the
    stored packages still unwanted, their names in insertion order. *)
Theorem get_unwanted_insertion_order ps st :
  Forall (fun p => wanted p = false) ps -> build ps empty = Ok tt st ->
  get_unwanted st = ps /\
  forall ns st', st' = run_ops (map OpMarkWantedByName ns) st ->
    map name (get_unwanted st') = filter (fun n => negb (is_wanted st' n)) (map name ps) /\
    (forall p, In p (get_unwanted st') <-> In (name p, p) (by_name st') /\ wanted p = false).
Proof.
  intros Hw Hb.
  pose proof (build_by_name _ _ _ Hb) as Hbn; simpl in Hbn.
  pose proof (build_wf _ _ _ wf_empty Hb) as Hwf.
  split.
  - unfold get_unwanted; rewrite Hbn. clear Hb Hbn Hwf.
    induction ps as [|p ps IH]; simpl; auto.
    inversion Hw as [|? ? Hp Hw']; subst. rewrite Hp; simpl. f_equal; auto.
  - intros ns st' ->.
    pose proof (run_marks_le ns st) as Hle.
    destruct (wf_le _ _ Hwf Hle) as [Hnd [Hnm _]].
    split.
    + unfold get_unwanted, is_wanted. rewrite unwanted_names by assumption.
      destruct Hle as [_ Hle]. rewrite (Forall2_le_fst _ _ Hle), Hbn, map_map. reflexivity.
    + intro p; apply in_unwanted; exact Hnm.
Qed.

Lemma step_keeps_wanted o st k :
  is_wanted st k = true -> is_wanted (step o st) k = true.
Proof.
  destruct o as [p|n| |n]; simpl; intro H.
  - unfold add. destruct (find_name (name p) (by_name st)); simpl; [exact H|].
    unfold is_wanted in *; simpl. rewrite find_name_app.
    destruct (find_name k (by_name st)); [exact H|discriminate].
  - exact (le_is_wanted _ _ _ (pres_mark _ n st) H).
  - exact H.
  - exact (le_is_wanted _ _ _ (le_marked n st) H).
Qed.

(** C9: a package is constructed unwanted, [mark_wanted] sets the flag,
    and no sequence of operations ([add], [mark_wanted_by_name],
    [get_unwanted], [mark_wanted]), whether they return or raise, clears
    a flag once set. *)
Theorem wanted_one_way :
  (forall path sections p, Package_init path sections = Some p -> wanted p = false) /\
  (forall p, wanted (mark_wanted p) = true) /\
  (forall ops st k, is_wanted st k = true -> is_wanted (run_ops ops st) k = true).
Proof.
  split; [|split].
  - intros path sections p H; unfold Package_init in H.
    destruct (first_line SECTION_NAME sections); [|discriminate].
    destruct (first_line SECTION_VERSION sections); [|discriminate].
    destruct (first_line SECTION_DESC sections); [|discriminate].
    injection H as <-; reflexivity.
  - intro p; reflexivity.
  - induction ops as [|o ops IH]; intros st k H; simpl; auto.
    apply IH, step_keeps_wanted, H.
Qed.

(* ------------------------------------------------------------------ *)
(** ** Instances and counterexamples *)

Lemma g_alias_wf : wf g_alias.
Proof. apply (build_wf alias_pkgs empty); [apply wf_empty|reflexivity]. Qed.

(** C1 counterexample: [V] is provided by [x] but is no package name;
    [mark_wanted_by_name "V"] returns [false] and marks nothing. *)
Lemma mark_alias_root_false :
  find_name "V" (by_name g_alias) = None /\
  find_prov "V" (by_provides g_alias) = Some ["x"] /\
  mark_wanted_by_name "V" g_alias = Ok false g_alias.
Proof. split; [reflexivity|split; reflexivity]. Qed.

Lemma mark_by_name_only_witness :
  find_name "V" (by_name g_alias) = None /\ mark_wanted_by_name "V" g_alias = Ok false g_alias.
Proof.
  split; [reflexivity|].
  apply (proj1 (mark_by_name_only "V" g_alias)); reflexivity.
Defined.


(** C3 counterexample: the provider [x] of [V] has an unresolvable
    dependency, so marking [y] raises instead of returning [true]. *)
Lemma mark_alias_dependency_raises :
  find_name "V" (by_name g_alias_broken) = None /\
  find_name "x" (by_name g_alias_broken) = Some (example_pkg "x" ["missing"] ["V"]) /\
  find_name "y" (by_name g_alias_broken) = Some (example_pkg "y" ["V"] []) /\
  exists st', mark_wanted_by_name "y" g_alias_broken = Raise (LookupError "missing" "x") st'.
Proof. split; [reflexivity|split; [reflexivity|split; [reflexivity|eexists; reflexivity]]]. Qed.

Lemma mark_alias_dependency_witness :
  is_wanted (st_of (mark_wanted_by_name "y" g_alias)) "x" = true.
Proof.
  refine (proj2 (proj2 (mark_alias_dependency g_alias "y" (example_pkg "y" ["V"] []) "V"
                          "x" (example_pkg "x" [] ["V"]) true _
                          g_alias_wf _ _ _ _ _ _ _))); try reflexivity; simpl; auto.
Defined.

Lemma mark_terminates_witness :
  exists st', mark_wanted_by_name "a" g_cycle = Ok true st' /\
              is_wanted st' "a" = true /\ is_wanted st' "b" = true.
Proof.
  apply (proj2 mark_terminates g_cycle "a" "b" (example_pkg "a" ["b"] []) (example_pkg "b" ["a"] []));
    try reflexivity; discriminate.
Defined.

Lemma mark_idempotent_witness :
  mark_wanted_by_name "a" (st_of (mark_wanted_by_name "a" g_cycle)) =
  Ok true (st_of (mark_wanted_by_name "a" g_cycle)).
Proof. apply (mark_idempotent "a" g_cycle true); vm_compute; reflexivity. Defined.

Lemma add_duplicate_witness :
  add (example_pkg "a" [] ["W"]) g_cycle = Raise (DuplicationError "a") g_cycle.
Proof.
  refine (proj1 (add_duplicate g_cycle (example_pkg "a" [] ["W"]) (example_pkg "a" ["b"] []) _));
    reflexivity.
Defined.

(** C7 counterexample: the entry ["bar="] keeps its [=], since [.+]
    needs a character after the comparator. *)
Lemma strip_keeps_trailing_comparator :
  match Package_init "/var/lib/pacman/local/foo-1.0-1/desc" foo_sections with
  | Some p => depends p = ["bar="; "baz"] /\
              depends p <> map Regex.spec_truncate (get_or_nil SECTION_DEPENDS foo_sections)
  | None => False
  end.
Proof. vm_compute. split; [reflexivity|discriminate]. Qed.

Lemma init_strips_versions_witness :
  exists p, Package_init "/var/lib/pacman/local/foo-1.0-1/desc" foo_sections = Some p /\
            depends p = map Regex.strip_rule (get_or_nil SECTION_DEPENDS foo_sections).
Proof.
  eexists; split; [reflexivity|].
  refine (proj1 (init_strips_versions "/var/lib/pacman/local/foo-1.0-1/desc" foo_sections _ _ _ _));
    [repeat constructor|repeat constructor|reflexivity].
Defined.

Lemma get_unwanted_insertion_order_witness : get_unwanted g_alias = alias_pkgs.
Proof.
  refine (proj1 (get_unwanted_insertion_order alias_pkgs g_alias _ _));
    [repeat constructor|reflexivity].
Defined.

Lemma wanted_one_way_witness :
  is_wanted (run_ops [OpAdd (example_pkg "c" ["a"] []); OpMarkWantedByName "zz"; OpGetUnwanted]
               (st_of (mark_wanted_by_name "a" g_cycle))) "b" = true.
Proof. apply (proj2 (proj2 wanted_one_way)); vm_compute; reflexivity. Defined.

Lemma mark_false_unchanged_witness :
  mark_wanted_by_name "V" g_alias = Ok false g_alias /\ g_alias = g_alias.
Proof.
  split; [reflexivity|].
  apply (mark_false_unchanged "V" g_alias g_alias); reflexivity.
Defined.

(* ------------------------------------------------------------------ *)
(** ** Reachability: what a call marks *)

Lemma mark_f_ok_false f n st st' :
  mark_wanted_by_name_f f n st = Ok false st' -> find_name n (by_name st) = None /\ st' = st.
Proof.
  destruct f as [|f]; simpl; [discriminate|].
  destruct (find_name n (by_name st)) as [p|]; [|intro H; injection H as <-; auto].
  destruct (wanted p); [discriminate|].
  intro H; apply then_ret_true in H as [H _]; discriminate.
Qed.

Lemma mark_f_ok_true f n st st' :
  mark_wanted_by_name_f f n st = Ok true st' -> find_name n (by_name st) <> None.
Proof.
  intros H F. destruct f as [|f]; [discriminate|].
  rewrite (mark_f_not_found _ _ _ F) in H; discriminate.
Qed.

Lemma find_le_back st s k p' :
  le_st st s -> find_name k (by_name s) = Some p' ->
  exists p, find_name k (by_name st) = Some p /\ (p' = p \/ p' = mark_wanted p).
Proof.
  intros [_ H] F. pose proof (find_name_le _ _ k H) as Hf.
  destruct (find_name k (by_name st)) as [p|]; [|congruence].
  destruct Hf as [q [Hq E]]. rewrite F in Hq; injection Hq as <-. eauto.
Qed.

Lemma find_le_depends st s k p :
  le_st st s -> find_name k (by_name st) = Some p ->
  exists p', find_name k (by_name s) = Some p' /\ depends p' = depends p.
Proof.
  intros [_ H] F. pose proof (find_name_le _ _ k H) as Hf. rewrite F in Hf.
  destruct Hf as [p' [Hp [E|E]]]; exists p'; split; auto; subst; reflexivity.
Qed.

Lemma find_le_none_iff st s k :
  le_st st s -> (find_name k (by_name s) = None <-> find_name k (by_name st) = None).
Proof.
  intro H; split; [|apply le_find_none; exact H].
  intro Hs. destruct (find_name k (by_name st)) as [p|] eqn:F; [|reflexivity].
  destruct (le_find_some _ _ _ _ H F) as [p' Hp]; congruence.
Qed.

Lemma dep_edge_le st s k k' : le_st st s -> dep_edge s k k' <-> dep_edge st k k'.
Proof.
  intro H. pose proof H as [Hprov _]. unfold dep_edge.
  rewrite Hprov. split.
  - intros [p' [d [F [Hd C]]]].
    destruct (find_le_back _ _ _ _ H F) as [p [Fp E]].
    exists p, d; split; [exact Fp|split].
    + destruct E as [->| ->]; [exact Hd|destruct p; exact Hd].
    + rewrite <- (find_le_none_iff _ _ d H). exact C.
  - intros [p [d [F [Hd C]]]].
    destruct (find_le_depends _ _ _ _ H F) as [p' [Fp E]].
    exists p', d; split; [exact Fp|split; [rewrite E; exact Hd|]].
    rewrite (find_le_none_iff _ _ d H). exact C.
Qed.

Lemma reaches_le st s k k' : le_st st s -> reaches s k k' <-> reaches st k k'.
Proof.
  intro H; unfold reaches; split; induction 1 as [|x y z Hxy _ IH].
  - constructor.
  - econstructor; [apply (dep_edge_le _ _ _ _ H); exact Hxy|exact IH].
  - constructor.
  - econstructor; [apply (dep_edge_le _ _ _ _ H); exact Hxy|exact IH].
Qed.

Lemma prov_keys_le st s : prov_keys st -> le_st st s -> prov_keys s.
Proof.
  intros Hk H v ns k Hv Hin. pose proof H as [Hp _]. rewrite Hp in Hv.
  rewrite (find_le_none_iff _ _ k H). exact (Hk v ns k Hv Hin).
Qed.

Lemma prov_keys_empty : prov_keys empty.
Proof. intros v ns k H; discriminate. Qed.

Lemma find_name_app_some k l x :
  find_name k l <> None -> find_name k (l ++ [x]) <> None.
Proof. rewrite find_name_app; destruct (find_name k l); congruence. Qed.

Lemma fold_prov_from provs n l v ns k :
  find_prov v (fold_left (fun acc w => prov_append w n acc) provs l) = Some ns -> In k ns ->
  k = n \/ exists ns0, find_prov v l = Some ns0 /\ In k ns0.
Proof.
  revert l; induction provs as [|w provs IH]; intros l H Hk; simpl in H; [right; eauto|].
  destruct (IH _ H Hk) as [->|[ns0 [H0 Hk0]]]; [now left|].
  rewrite find_prov_append in H0. destruct (String.eqb w v).
  - injection H0 as <-. destruct (find_prov v l) as [ns1|].
    + apply in_app_or in Hk0 as [Hk0|[<-|[]]]; [right; eauto|now left].
    + destruct Hk0 as [<-|[]]; now left.
  - right; eauto.
Qed.

Lemma prov_keys_add p st st' : prov_keys st -> add p st = Ok tt st' -> prov_keys st'.
Proof.
  intros Hk H; apply add_ok in H as [_ ->]. intros v ns k Hv Hin; simpl in *.
  destruct (fold_prov_from _ _ _ _ _ _ Hv Hin) as [->|[ns0 [H0 Hin0]]].
  - rewrite find_name_app; destruct (find_name (name p) (by_name st)); [discriminate|].
    simpl; rewrite String.eqb_refl; discriminate.
  - apply find_name_app_some. exact (Hk _ _ _ H0 Hin0).
Qed.

Lemma prov_keys_build ps st st' : prov_keys st -> build ps st = Ok tt st' -> prov_keys st'.
Proof.
  revert st; induction ps as [|p ps IH]; intros st Hk H; simpl in H.
  - injection H as <-; exact Hk.
  - apply bind_ok in H as [[] [s [H1 H2]]]. exact (IH s (prov_keys_add _ _ _ Hk H1) H2).
Qed.

Lemma le_of_ok {A} (m : M A) st a s : pres m -> m st = Ok a s -> le_st st s.
Proof. intros Hp H; specialize (Hp st); rewrite H in Hp; exact Hp. Qed.

Lemma dep_reaches_le st s d k : le_st st s -> dep_reaches s d k -> dep_reaches st d k.
Proof.
  intros H. pose proof H as [Hp _]. unfold dep_reaches.
  rewrite (find_le_none_iff _ _ d H), Hp.
  intros [[N R]|[N [ns [E [k' [I R]]]]]].
  - left; split; [exact N|apply (reaches_le _ _ _ _ H); exact R].
  - right; split; [exact N|exists ns; split; [exact E|exists k'; split; [exact I|]]].
    apply (reaches_le _ _ _ _ H); exact R.
Qed.

Section Soundness.
Variable f : nat.
Hypothesis IH : forall n, sound_ok (fun st k => reaches st n k) (mark_wanted_by_name_f f n).

Lemma sound_prov_loop ns st st' k :
  for_each (fun n => _ <- mark_wanted_by_name_f f n ;; ret tt) ns st = Ok tt st' ->
  is_wanted st' k = true -> is_wanted st k = true \/ exists k', In k' ns /\ reaches st k' k.
Proof.
  revert st; induction ns as [|n ns IHns]; intros st H W; simpl in H.
  - injection H as <-; auto.
  - apply bind_ok in H as [[] [s [H1 H2]]].
    apply bind_ok in H1 as [a [s1 [H1 H3]]]; injection H3 as ->.
    pose proof (le_of_ok _ _ _ _ (pres_mark f n) H1) as Hle.
    destruct (IHns s H2 W) as [W1|[k' [I R]]].
    + destruct (IH n _ _ _ _ H1 W1) as [W2|R]; [auto|right; exists n; split; [left; auto|exact R]].
    + right; exists k'; split; [right; exact I|apply (reaches_le _ _ _ _ Hle); exact R].
Qed.

Lemma sound_satisfy p d st st' k :
  satisfy_dep (mark_wanted_by_name_f f) p d st = Ok tt st' ->
  is_wanted st' k = true -> is_wanted st k = true \/ dep_reaches st d k.
Proof.
  unfold satisfy_dep; intros H W.
  apply bind_ok in H as [b1 [s1 [H1 H2]]]. destruct b1.
  - injection H2 as <-.
    destruct (IH d _ _ _ _ H1 W) as [W1|R]; [auto|].
    right; left; split; [exact (mark_f_ok_true _ _ _ _ H1)|exact R].
  - apply mark_f_ok_false in H1 as [N ->].
    apply bind_ok in H2 as [b2 [s2 [H2 H3]]].
    destruct b2; [injection H3 as <-|discriminate].
    unfold mark_wanted_by_provided in H2.
    destruct (find_prov d (by_provides st)) as [ns|] eqn:E; [|discriminate].
    apply then_ret_true in H2 as [_ [[] H2]].
    destruct (sound_prov_loop _ _ _ _ H2 W) as [W1|R]; [auto|].
    right; right; split; [exact N|exists ns; split; [exact E|exact R]].
Qed.

Lemma sound_deps p l st st' k :
  for_each (satisfy_dep (mark_wanted_by_name_f f) p) l st = Ok tt st' ->
  is_wanted st' k = true -> is_wanted st k = true \/ exists d, In d l /\ dep_reaches st d k.
Proof.
  revert st; induction l as [|d l IHl]; intros st H W; simpl in H.
  - injection H as <-; auto.
  - apply bind_ok in H as [[] [s [H1 H2]]].
    pose proof (le_of_ok _ _ _ _ (pres_satisfy _ p d (pres_mark f)) H1) as Hle.
    destruct (IHl s H2 W) as [W1|[d' [I R]]].
    + destruct (sound_satisfy _ _ _ _ _ H1 W1) as [W2|R]; [auto|right; exists d; split; [left; auto|exact R]].
    + right; exists d'; split; [right; exact I|exact (dep_reaches_le _ _ _ _ Hle R)].
Qed.

End Soundness.

Lemma sound_mark f n : sound_ok (fun st k => reaches st n k) (mark_wanted_by_name_f f n).
Proof.
  revert n; induction f as [|f IHf]; intros n st a st' k H W; [discriminate|].
  destruct (find_name n (by_name st)) as [p|] eqn:F.
  - destruct (wanted p) eqn:Wp.
    + rewrite (mark_f_wanted _ _ _ _ F Wp) in H; injection H as _ <-; auto.
    + rewrite (mark_f_unwanted _ _ _ _ F Wp) in H.
      apply then_ret_true in H as [_ [[] H]].
      destruct (sound_deps f IHf _ _ _ _ _ H W) as [W1|[d [I R]]].
      * destruct (String.eqb_spec k n) as [->|Hne]; [right; constructor|].
        left; unfold is_wanted in *; rewrite find_marked_other in W1; auto.
      * apply (dep_reaches_le st) in R; [|apply le_marked]. right.
        destruct R as [[N R]|[N [ns [E [k' [I' R]]]]]].
        -- econstructor; [|exact R]. exists p, d; split; [exact F|split; [exact I|left; auto]].
        -- econstructor; [|exact R]. exists p, d; split; [exact F|split; [exact I|right; eauto]].
  - rewrite (mark_f_not_found _ _ _ F) in H; injection H as _ <-; auto.
Qed.

(* ------------------------------------------------------------------ *)
(** ** Closure: what a call marks has all its dependencies marked *)

Lemma closed_marked S n st :
  closed_except S st -> closed_except (n :: S) (marked n st).
Proof.
  intros C k k' W nS E.
  assert (Hne : k <> n) by (intro; apply nS; left; auto).
  unfold is_wanted in W; rewrite find_marked_other in W by exact Hne.
  apply (le_is_wanted st); [apply le_marked|].
  apply (C k k'); [exact W|intro; apply nS; right; auto|].
  apply (dep_edge_le _ _ _ _ (le_marked n st)); exact E.
Qed.

Lemma pres_prov_body f : forall n : string, pres (_ <- mark_wanted_by_name_f f n ;; ret tt).
Proof. intro n; apply pres_bind; [apply pres_mark|intro; apply pres_ret]. Qed.

Lemma prov_keys_ok {A} (m : M A) st a s : pres m -> prov_keys st -> m st = Ok a s -> prov_keys s.
Proof. intros Hp Hk H; exact (prov_keys_le _ _ Hk (le_of_ok _ _ _ _ Hp H)). Qed.

Section Closure.
Variable f : nat.
Hypothesis IHc : forall n S st a st', prov_keys st -> closed_except S st ->
  mark_wanted_by_name_f f n st = Ok a st' -> closed_except S st'.

Lemma closed_prov_loop S ns st st' :
  prov_keys st -> closed_except S st ->
  for_each (fun n => _ <- mark_wanted_by_name_f f n ;; ret tt) ns st = Ok tt st' ->
  closed_except S st'.
Proof.
  revert st; induction ns as [|n ns IHns]; intros st Hk C H; simpl in H.
  - injection H as <-; exact C.
  - apply bind_ok in H as [[] [s [H1 H2]]].
    apply (IHns s); [exact (prov_keys_ok _ _ _ _ (pres_prov_body f n) Hk H1)| |exact H2].
    apply bind_ok in H1 as [a [s1 [H1 H3]]]; injection H3 as ->.
    exact (IHc _ _ _ _ _ Hk C H1).
Qed.

Lemma closed_satisfy S p d st st' :
  prov_keys st -> closed_except S st ->
  satisfy_dep (mark_wanted_by_name_f f) p d st = Ok tt st' -> closed_except S st'.
Proof.
  unfold satisfy_dep; intros Hk C H.
  apply bind_ok in H as [b1 [s1 [H1 H2]]]. destruct b1.
  - injection H2 as <-; exact (IHc _ _ _ _ _ Hk C H1).
  - apply mark_f_ok_false in H1 as [_ ->].
    apply bind_ok in H2 as [b2 [s2 [H2 H3]]].
    destruct b2; [injection H3 as <-|discriminate].
    unfold mark_wanted_by_provided in H2.
    destruct (find_prov d (by_provides st)) as [ns|]; [|discriminate].
    apply then_ret_true in H2 as [_ [[] H2]].
    exact (closed_prov_loop _ _ _ _ Hk C H2).
Qed.

Lemma closed_deps S p l st st' :
  prov_keys st -> closed_except S st ->
  for_each (satisfy_dep (mark_wanted_by_name_f f) p) l st = Ok tt st' -> closed_except S st'.
Proof.
  revert st; induction l as [|d l IHl]; intros st Hk C H; simpl in H.
  - injection H as <-; exact C.
  - apply bind_ok in H as [[] [s [H1 H2]]].
    apply (IHl s); [|exact (closed_satisfy _ _ _ _ _ Hk C H1)|exact H2].
    exact (prov_keys_ok _ _ _ _ (pres_satisfy _ p d (pres_mark f)) Hk H1).
Qed.

(** The loop body for [d] leaves wanted every package [d] leads to directly. *)
Lemma satisfy_marks p d st st' k' :
  prov_keys st ->
  satisfy_dep (mark_wanted_by_name_f f) p d st = Ok tt st' ->
  ((find_name d (by_name st) <> None /\ k' = d) \/
   (find_name d (by_name st) = None /\
    exists ns, find_prov d (by_provides st) = Some ns /\ In k' ns)) ->
  is_wanted st' k' = true.
Proof.
  unfold satisfy_dep; intros Hk H D.
  apply bind_ok in H as [b1 [s1 [H1 H2]]]. destruct b1.
  - injection H2 as <-.
    destruct D as [[N ->]|[N _]]; [|exact (False_ind _ (mark_f_ok_true _ _ _ _ H1 N))].
    destruct (find_name d (by_name st)) as [q|] eqn:F; [|congruence].
    exact (proj2 (mark_f_found_ok _ _ _ _ _ _ F H1)).
  - apply mark_f_ok_false in H1 as [N ->].
    destruct D as [[N' _]|[_ [ns [E I]]]]; [congruence|].
    apply bind_ok in H2 as [b2 [s2 [H2 H3]]].
    destruct b2; [injection H3 as <-|discriminate].
    unfold mark_wanted_by_provided in H2; rewrite E in H2.
    apply then_ret_true in H2 as [_ [[] H2]].
    destruct (for_each_in _ _ _ _ _ (pres_prov_body f) H2 I) as [s3 [s4 [L3 [B L4]]]].
    apply bind_ok in B as [a [s5 [B B']]]; injection B' as ->.
    apply (le_is_wanted s4); [exact L4|].
    destruct (find_name k' (by_name s3)) as [q|] eqn:F.
    + exact (proj2 (mark_f_found_ok _ _ _ _ _ _ F B)).
    + exfalso; apply (Hk d ns k' E I). apply (find_le_none_iff _ _ k' L3); exact F.
Qed.

End Closure.

Lemma closed_mark f : forall n S st a st', prov_keys st -> closed_except S st ->
  mark_wanted_by_name_f f n st = Ok a st' -> closed_except S st'.
Proof.
  induction f as [|f IHf]; intros n S st a st' Hk C H; [discriminate|].
  destruct (find_name n (by_name st)) as [p|] eqn:F.
  - destruct (wanted p) eqn:Wp.
    + rewrite (mark_f_wanted _ _ _ _ F Wp) in H; injection H as _ <-; exact C.
    + rewrite (mark_f_unwanted _ _ _ _ F Wp) in H.
      apply then_ret_true in H as [_ [[] H]].
      assert (Hk1 : prov_keys (marked n st)) by exact (prov_keys_le _ _ Hk (le_marked n st)).
      pose proof (closed_deps f IHf _ _ _ _ _ Hk1 (closed_marked _ n _ C) H) as C1.
      assert (L : le_st st st').
      { apply le_st_trans with (s2 := marked n st); [apply le_marked|].
        refine (le_of_ok _ _ _ _ _ H). apply pres_for_each; intro d; apply pres_satisfy, pres_mark. }
      intros k k' W nS E.
      destruct (String.eqb_spec k n) as [->|Hne].
      * apply (dep_edge_le _ _ _ _ L) in E as [p0 [d [F0 [I D]]]].
        rewrite F in F0; injection F0 as <-.
        destruct (for_each_in _ _ _ _ _ (fun d => pres_satisfy _ p d (pres_mark f)) H I)
          as [s1 [s2 [L1 [B L2]]]].
        assert (L1' : le_st st s1) by (apply le_st_trans with (s2 := marked n st); [apply le_marked|exact L1]).
        apply (le_is_wanted s2); [exact L2|].
        apply (satisfy_marks f p d s1); [exact (prov_keys_le _ _ Hk L1')|exact B|].
        pose proof L1' as [Hp _]. rewrite Hp, (find_le_none_iff _ _ d L1'). exact D.
      * apply (C1 k k' W); [intros [E'|E']; [congruence|exact (nS E')]|exact E].
  - rewrite (mark_f_not_found _ _ _ F) in H; injection H as _ <-; exact C.
Qed.

Lemma closed_reaches s k k' :
  closed_except [] s -> is_wanted s k = true -> reaches s k k' -> is_wanted s k' = true.
Proof.
  intros C W R; induction R as [|x y z E _ IH]; [exact W|].
  apply IH. exact (C x y W (fun H => H) E).
Qed.

Lemma mark_ok_true_wanted f n st st' :
  mark_wanted_by_name_f f n st = Ok true st' -> is_wanted st' n = true.
Proof.
  intro H. pose proof (mark_f_ok_true _ _ _ _ H) as N.
  destruct (find_name n (by_name st)) as [q|] eqn:F; [|congruence].
  exact (proj2 (mark_f_found_ok _ _ _ _ _ _ F H)).
Qed.

Lemma mark_exact_core n st b st' :
  prov_keys st -> closed_except [] st -> mark_wanted_by_name n st = Ok b st' ->
  closed_except [] st' /\
  (forall k, is_wanted st' k = true <-> is_wanted st k = true \/ (b = true /\ reaches st n k)).
Proof.
  unfold mark_wanted_by_name; intros Hk C H.
  pose proof (le_of_ok _ _ _ _ (pres_mark _ n) H) as L.
  pose proof (closed_mark _ _ _ _ _ _ Hk C H) as C'.
  split; [exact C'|intro k].
  destruct b.
  - split.
    + intro W. destruct (sound_mark _ _ _ _ _ _ H W); auto.
    + intros [W|[_ R]]; [exact (le_is_wanted _ _ _ L W)|].
      apply (closed_reaches st' n); [exact C'|exact (mark_ok_true_wanted _ _ _ _ H)|].
      apply (reaches_le _ _ _ _ L); exact R.
  - apply mark_f_ok_false in H as [_ ->]. split; [auto|intros [W|[E _]]; [exact W|discriminate]].
Qed.

(** [mark_wanted_by_name n] on a graph whose wanted packages have their
    dependencies wanted and whose [by_provides] lists only package names:
    when it returns, the graph keeps both properties, and the packages
    wanted afterwards are exactly those wanted before and, if it
    returned [true], those reachable from [n] along dependencies. *)
Theorem mark_wanted_exact n st b st' :
  prov_keys st -> closed_except [] st -> mark_wanted_by_name n st = Ok b st' ->
  prov_keys st' /\ closed_except [] st' /\
  (forall k, is_wanted st' k = true <-> is_wanted st k = true \/ (b = true /\ reaches st n k)).
Proof.
  intros Hk C H. split; [|exact (mark_exact_core _ _ _ _ Hk C H)].
  apply (prov_keys_le st); [exact Hk|].
  unfold mark_wanted_by_name in H; exact (le_of_ok _ _ _ _ (pres_mark _ n) H).
Qed.

Lemma mark_wants_ok wants st s :
  prov_keys st -> closed_except [] st -> mark_wants wants st = (None, s) ->
  le_st st s /\ closed_except [] s /\ Forall (fun w => is_wanted s w = true) wants /\
  (forall k, is_wanted s k = true <-> is_wanted st k = true \/ exists w, In w wants /\ reaches st w k).
Proof.
  revert st; induction wants as [|w ws IH]; intros st Hk C H; simpl in H.
  - injection H as <-. split; [apply le_st_refl|split; [exact C|split; [constructor|]]].
    intro k; split; [auto|intros [W|[w [[] _]]]; exact W].
  - destruct (mark_wanted_by_name w st) as [[|] s1|e s1] eqn:E; try discriminate.
    pose proof (le_of_ok _ _ _ _ (pres_mark _ w) E) as L1.
    destruct (mark_exact_core _ _ _ _ Hk C E) as [C1 I1].
    destruct (IH s1 (prov_keys_le _ _ Hk L1) C1 H) as [L [C2 [Fw I2]]].
    split; [exact (le_st_trans _ _ _ L1 L)|split; [exact C2|split]].
    + constructor; [|exact Fw].
      apply (le_is_wanted s1); [exact L|]. apply I1; right; split; [reflexivity|constructor].
    + intro k; rewrite I2, I1. split.
      * intros [[W|[_ R]]|[w' [I R]]]; [auto|right; exists w; split; [left; auto|exact R]|].
        right; exists w'; split; [right; exact I|]. apply (reaches_le _ _ _ _ L1); exact R.
      * intros [W|[w' [[<-|I] R]]]; [auto|left; right; auto|].
        right; exists w'; split; [exact I|]. apply (reaches_le _ _ _ _ L1); exact R.
Qed.

Lemma none_wanted_closed S st :
  Forall (fun kp => wanted (snd kp) = false) (by_name st) -> closed_except S st.
Proof.
  intros Hf k k' W. exfalso. unfold is_wanted in W.
  destruct (find_name k (by_name st)) as [p|] eqn:F; [|discriminate].
  apply find_name_in in F. pose proof (proj1 (Forall_forall _ _) Hf _ F) as Wp; simpl in Wp.
  rewrite Wp in W; discriminate.
Qed.

Lemma none_wanted_is_wanted st k :
  Forall (fun kp => wanted (snd kp) = false) (by_name st) -> is_wanted st k = false.
Proof.
  intros Hf. unfold is_wanted.
  destruct (find_name k (by_name st)) as [p|] eqn:F; [|reflexivity].
  apply find_name_in in F. exact (proj1 (Forall_forall _ _) Hf _ F).
Qed.

Lemma unwanted_in_order l l' :
  Forall (fun p => wanted p = false) l -> NoDup (map name l) ->
  Forall2 le_entry (map (fun p => (name p, p)) l) l' ->
  map snd (filter (fun kp => negb (wanted (snd kp))) l') =
  filter (fun p => negb (match find_name (name p) l' with Some q => wanted q | None => false end)) l.
Proof.
  revert l'; induction l as [|p l IH]; intros l' Hw Hn H; simpl in H; inversion H as [|e e' m m' [Hk Hp] H' E1 E2]; subst; [reflexivity|].
  destruct e' as [k' p']; simpl in Hk, Hp; subst k'.
  inversion Hw as [|? ? Wp Hw']; inversion Hn as [|? ? Nin Hn']; subst.
  assert (Ht : filter (fun q => negb (match find_name (name q) m' with Some r => wanted r | None => false end)) l =
               filter (fun q => negb (match (if String.eqb (name p) (name q) then Some p' else find_name (name q) m')
                                            with Some r => wanted r | None => false end)) l).
  { apply filter_ext_in; intros q Iq.
    destruct (String.eqb_spec (name p) (name q)) as [E|]; [|reflexivity].
    exfalso; apply Nin; rewrite E; apply in_map; exact Iq. }
  destruct Hp as [-> | ->]; simpl; rewrite String.eqb_refl; [rewrite Wp|]; simpl;
    rewrite <- Ht, <- (IH m' Hw' Hn' H'); reflexivity.
Qed.

(** [process] on a database read without error, whose packages start
    unwanted: when it prints, the wanted packages are exactly those
    reachable from a wanted name along dependencies (a dependency that is
    no package name leading to every package that provides it), and the
    lines printed are [name - desc] of the other packages, in the order
    of the database. *)
Theorem process_prints_unreached db wants lines s :
  Forall (fun p => wanted p = false) db ->
  process_core db wants = Printed lines s ->
  lines = map output_line (filter (fun p => negb (is_wanted s (name p))) db) /\
  (forall k, is_wanted s k = true <-> exists w, In w wants /\ reaches (built db) w k).
Proof.
  intros Hw H. unfold process_core in H.
  destruct (build db empty) as [[] st|e st] eqn:B; [|discriminate].
  destruct (mark_wants wants st) as [[e|] s1] eqn:MW; [discriminate|].
  injection H as <- <-.
  assert (Est : built db = st) by (unfold built; rewrite B; reflexivity). rewrite Est.
  pose proof (build_by_name _ _ _ B) as Bn; simpl in Bn.
  assert (Hu : Forall (fun kp => wanted (snd kp) = false) (by_name st)).
  { rewrite Bn; apply Forall_map; exact Hw. }
  destruct (mark_wants_ok _ _ _ (prov_keys_build _ _ _ prov_keys_empty B)
              (none_wanted_closed [] _ Hu) MW) as [[_ L] [_ [_ I]]].
  split.
  - unfold get_unwanted. rewrite Bn in L.
    destruct (build_wf _ _ _ wf_empty B) as [Nd _]. rewrite Bn, map_map in Nd.
    rewrite (unwanted_in_order _ _ Hw Nd L). reflexivity.
  - intro k; rewrite I, (none_wanted_is_wanted _ _ Hu). split; [intros [W|R]; [discriminate|exact R]|auto].
Qed.

(* ------------------------------------------------------------------ *)
(** ** Reading the database *)

Lemma find_name_keys k l : In k (map fst l) -> find_name k l <> None.
Proof.
  induction l as [|[k' p] l IH]; simpl; [intros []|].
  destruct (String.eqb_spec k' k); [discriminate|]. intros [E|I]; [congruence|exact (IH I)].
Qed.

Lemma build_result_gen ps : forall st,
  match build ps st with
  | Ok _ st' => NoDup (map fst (by_name st) ++ map name ps) ->
                by_name st' = by_name st ++ map (fun p => (name p, p)) ps
  | Raise e _ => ~ NoDup (map fst (by_name st) ++ map name ps) /\
                 exists p, In p ps /\ e = DuplicationError (name p)
  end /\
  (NoDup (map fst (by_name st)) -> (exists st', build ps st = Ok tt st') ->
   NoDup (map fst (by_name st) ++ map name ps)).
Proof.
  induction ps as [|p ps IH]; intro st.
  - simpl; rewrite app_nil_r; split; [intros _; rewrite app_nil_r; reflexivity|auto].
  - unfold build in *; simpl; unfold bind.
    destruct (add p st) as [[] s1|e s1] eqn:A.
    + pose proof (add_ok _ _ _ A) as [N Es1].
      assert (Ek : map fst (by_name s1) ++ map name ps = map fst (by_name st) ++ map name (p :: ps)).
      { rewrite Es1; simpl; rewrite map_app, <- app_assoc; reflexivity. }
      destruct (IH s1) as [IH1 IH2]. rewrite Ek in IH1, IH2.
      unfold build in IH1, IH2.
      split.
      * destruct (for_each add ps s1) as [[] s2|e s2].
        -- intro Nd. rewrite (IH1 Nd), Es1; simpl; rewrite <- app_assoc; reflexivity.
        -- destruct IH1 as [IH1 [q [Iq Eq]]]. split; [exact IH1|exists q; split; [right; exact Iq|exact Eq]].
      * intros Nd Ex. apply IH2; [|exact Ex].
        rewrite Es1; simpl; rewrite map_app; simpl.
        apply NoDup_app; [exact Nd|constructor; [intros []|constructor]|].
        intros x Ix [<-|[]]. exact (find_name_none_notin _ _ N Ix).
    + unfold add in A. destruct (find_name (name p) (by_name st)) as [q|] eqn:F; [|discriminate].
      injection A as <- <-. split.
      * split; [|exists p; split; [left|]; reflexivity].
        intro Nd. apply NoDup_remove_2 with (l := map fst (by_name st)) (l' := map name ps) (a := name p).
        -- exact Nd.
        -- apply in_or_app; left. apply find_name_in in F. change (name p) with (fst (name p, q)). apply in_map; exact F.
      * intros _ [st' E]; discriminate.
Qed.

Lemma read_result_gen_nodup db st : build db empty = Ok tt st -> NoDup (map name db).
Proof.
  intro B. destruct (build_result_gen db empty) as [_ H2]; simpl in H2.
  apply H2; [constructor|eauto].
Qed.

(** [LocalPackageDatabase.read]: reading the packages [ps] (in the order
    of [glob.glob]) succeeds exactly when their names are distinct, and
    then stores them under their names in that order; otherwise it raises
    [DuplicationError] for the name of one of them. *)
Theorem read_result ps :
  match build ps empty with
  | Ok _ st => NoDup (map name ps) /\ by_name st = map (fun p => (name p, p)) ps
  | Raise e _ => ~ NoDup (map name ps) /\ exists p, In p ps /\ e = DuplicationError (name p)
  end.
Proof.
  destruct (build_result_gen ps empty) as [H1 H2]; simpl in H1, H2.
  destruct (build ps empty) as [[] st|e st] eqn:B.
  - assert (Nd : NoDup (map name ps)) by (apply H2; [constructor|eauto]).
    split; [exact Nd|exact (H1 Nd)].
  - exact H1.
Qed.

Lemma opt_app_app o a b : opt_app (opt_app o a) b = opt_app o (a ++ b).
Proof. destruct o as [x|], a as [|y a], b as [|z b]; simpl; rewrite ?app_nil_r, <- ?app_assoc; reflexivity. Qed.

Lemma opt_app_nil o : opt_app o [] = o.
Proof. destruct o; simpl; rewrite ?app_nil_r; reflexivity. Qed.

Lemma fold_prov_lookup provs n l v :
  find_prov v (fold_left (fun acc w => prov_append w n acc) provs l) =
  opt_app (find_prov v l) (map (fun _ => n) (filter (fun w => String.eqb w v) provs)).
Proof.
  revert l; induction provs as [|w provs IH]; intro l; simpl; [rewrite opt_app_nil; reflexivity|].
  rewrite IH, find_prov_append. destruct (String.eqb w v); simpl.
  - destruct (find_prov v l); simpl; rewrite <- ?app_assoc; reflexivity.
  - reflexivity.
Qed.

Lemma build_prov_lookup ps v : forall st st',
  build ps st = Ok tt st' ->
  find_prov v (by_provides st') = opt_app (find_prov v (by_provides st)) (providers v ps).
Proof.
  induction ps as [|p ps IH]; intros st st' H; simpl in H.
  - injection H as <-; rewrite opt_app_nil; reflexivity.
  - apply bind_ok in H as [[] [s [H1 H2]]].
    rewrite (IH _ _ H2). apply add_ok in H1 as [_ ->]; simpl.
    rewrite fold_prov_lookup, opt_app_app; reflexivity.
Qed.

(** After [LocalPackageDatabase.read] has added the packages [ps],
    [__by_provides] has a key [v] exactly when some package provides [v],
    and lists under it the providers in the order they were read, a
    package once for every time it lists [v]. *)
Theorem read_by_provides ps st v :
  build ps empty = Ok tt st ->
  find_prov v (by_provides st) =
  match providers v ps with [] => None | ns => Some ns end.
Proof. intro H; rewrite (build_prov_lookup _ _ _ _ H); simpl; destruct (providers v ps); reflexivity. Qed.

(* ------------------------------------------------------------------ *)
(** ** What a [LookupError] names *)

Lemma bind_raise_inv {A B} (m : M A) (k : A -> M B) st e s :
  bind m k st = Raise e s ->
  (exists s', m st = Raise e s') \/ (exists a s', m st = Ok a s' /\ k a s' = Raise e s).
Proof. unfold bind; destruct (m st) as [a s'|e' s']; intro H; [right; eauto|left; injection H as -> _; eauto]. Qed.

Lemma for_each_raise_in {A} (body : A -> M unit) l st e s :
  (forall y, pres (body y)) -> for_each body l st = Raise e s ->
  exists x s1 s2, In x l /\ le_st st s1 /\ body x s1 = Raise e s2.
Proof.
  intro Hp; revert st; induction l as [|y l IH]; intros st H; simpl in H; [discriminate|].
  apply bind_raise_inv in H as [[s' H]|[[] [s' [H1 H2]]]].
  - exists y, st, s'; split; [left; auto|split; [apply le_st_refl|exact H]].
  - destruct (IH _ H2) as [x [s1 [s2 [I [L B]]]]].
    exists x, s1, s2; split; [right; exact I|split; [|exact B]].
    exact (le_st_trans _ _ _ (le_of_ok _ _ _ _ (Hp y) H1) L).
Qed.

Lemma lookup_culprit_le st s d q : le_st st s -> lookup_culprit s d q -> lookup_culprit st d q.
Proof.
  intros L [k [p' [F [Nq [I [Nd Np]]]]]].
  destruct (find_le_back _ _ _ _ L F) as [p [Fp E]].
  pose proof L as [Hp _].
  exists k, p; split; [exact Fp|].
  assert (Hn : name p' = name p /\ depends p' = depends p) by (destruct E as [->| ->]; auto).
  destruct Hn as [Hn Hd]. rewrite <- Hn, <- Hd. split; [exact Nq|split; [exact I|split]].
  - apply (find_le_none_iff _ _ d L); exact Nd.
  - rewrite <- Hp; exact Np.
Qed.

Lemma lookup_accurate_f f : forall n st d q s,
  mark_wanted_by_name_f f n st = Raise (LookupError d q) s -> lookup_culprit st d q.
Proof.
  induction f as [|f IH]; intros n st d q s H; [discriminate|].
  destruct (find_name n (by_name st)) as [p|] eqn:F;
    [|rewrite (mark_f_not_found _ _ _ F) in H; discriminate].
  destruct (wanted p) eqn:Wp; [rewrite (mark_f_wanted _ _ _ _ F Wp) in H; discriminate|].
  rewrite (mark_f_unwanted _ _ _ _ F Wp) in H.
  apply bind_raise_inv in H as [[s0 H]|[[] [s0 [_ H']]]]; [|discriminate].
  destruct (for_each_raise_in _ _ _ _ _ (fun d => pres_satisfy _ p d (pres_mark f)) H)
    as [d0 [s1 [s2 [I [L1 B]]]]].
  assert (L : le_st st s1) by exact (le_st_trans _ _ _ (le_marked n st) L1).
  apply (lookup_culprit_le _ _ _ _ L).
  unfold satisfy_dep in B.
  apply bind_raise_inv in B as [[s3 B]|[b1 [s3 [B1 B]]]]; [exact (IH _ _ _ _ _ B)|].
  destruct b1; [discriminate|].
  apply mark_f_ok_false in B1 as [N1 ->].
  apply bind_raise_inv in B as [[s4 B]|[b2 [s4 [B2 B]]]].
  - unfold mark_wanted_by_provided in B.
    destruct (find_prov d0 (by_provides s1)) as [ns|]; [|discriminate].
    apply bind_raise_inv in B as [[s5 B]|[[] [s5 [_ B']]]]; [|discriminate].
    destruct (for_each_raise_in _ _ _ _ _ (pres_prov_body f) B) as [k [s6 [s7 [_ [L6 B6]]]]].
    apply bind_raise_inv in B6 as [[s8 B6]|[a [s8 [_ B8]]]]; [|discriminate].
    exact (lookup_culprit_le _ _ _ _ L6 (IH _ _ _ _ _ B6)).
  - destruct b2; [discriminate|]. injection B as Ed Eq _. subst d0 q.
    unfold mark_wanted_by_provided in B2.
    destruct (find_prov d (by_provides s1)) as [ns|] eqn:Pv.
    + apply then_ret_true in B2 as [E _]; discriminate.
    + injection B2 as E4; subst s4.
      assert (Fs : find_name n (by_name s1) = Some (mark_wanted p)).
      { destruct (find_le_depends _ _ _ _ L F) as [p' [F' _]].
        pose proof (find_marked_same _ _ _ F) as Fm.
        destruct (le_find_some _ _ _ _ L1 Fm) as [p'' Hp''].
        rewrite Hp'' in F'. pose proof L1 as [_ Lf].
        pose proof (find_name_le _ _ n Lf) as Hf; rewrite Fm in Hf.
        destruct Hf as [p3 [F3 [E3|E3]]]; rewrite F3; [rewrite E3|rewrite E3, mark_wanted_idem]; reflexivity. }
      exists n, (mark_wanted p); auto.
Qed.



(** A [LookupError d q] raised by [mark_wanted_by_name] is accurate: a
    stored package named [q] lists [d] among its dependencies, and [d] is
    neither a package name nor a key of [__by_provides] (of the graph the
    call started from). *)
Theorem mark_lookup_error_accurate n st d q s :
  mark_wanted_by_name n st = Raise (LookupError d q) s ->
  exists k p, find_name k (by_name st) = Some p /\ name p = q /\ In d (depends p) /\
    find_name d (by_name st) = None /\ find_prov d (by_provides st) = None.
Proof. unfold mark_wanted_by_name; intro H; exact (lookup_accurate_f _ _ _ _ _ _ H). Qed.

(* ------------------------------------------------------------------ *)
(** ** How [process] stops *)

Lemma find_name_some_keys k l : find_name k l <> None -> In k (map fst l).
Proof.
  intro H. destruct (find_name k l) as [p|] eqn:F; [|congruence].
  apply find_name_in in F. change k with (fst (k, p)). apply in_map; exact F.
Qed.

Lemma mark_wants_none_keys wants : forall st s,
  mark_wants wants st = (None, s) -> Forall (fun w => find_name w (by_name st) <> None) wants.
Proof.
  induction wants as [|w ws IH]; intros st s H; simpl in H; [constructor|].
  destruct (mark_wanted_by_name w st) as [[|] s1|e s1] eqn:E; try discriminate.
  pose proof (le_of_ok _ _ _ _ (pres_mark _ w) E) as L.
  constructor; [exact (mark_f_ok_true _ _ _ _ E)|].
  eapply Forall_impl; [|exact (IH _ _ H)].
  intros a Ha N. apply Ha. apply (le_find_none _ _ _ L); exact N.
Qed.

Lemma mark_wants_some wants : forall st e s,
  mark_wants wants st = (Some e, s) ->
  exists pre w post s0, wants = pre ++ w :: post /\
    Forall (fun w' => find_name w' (by_name st) <> None) pre /\ le_st st s0 /\
    ((e = NotInstalled w /\ mark_wanted_by_name w s0 = Ok false s) \/
     (exists ge, e = GraphError ge /\ mark_wanted_by_name w s0 = Raise ge s)).
Proof.
  induction wants as [|w ws IH]; intros st e s H; simpl in H; [discriminate|].
  destruct (mark_wanted_by_name w st) as [[|] s1|ge s1] eqn:E.
  - destruct (IH _ _ _ H) as [pre [w' [post [s0 [-> [Fp [L R]]]]]]].
    pose proof (le_of_ok _ _ _ _ (pres_mark _ w) E) as L1.
    exists (w :: pre), w', post, s0; split; [reflexivity|split; [|split; [exact (le_st_trans _ _ _ L1 L)|exact R]]].
    constructor; [exact (mark_f_ok_true _ _ _ _ E)|].
    eapply Forall_impl; [|exact Fp]. intros a Ha N. apply Ha. apply (le_find_none _ _ _ L1); exact N.
  - injection H as <- <-. exists [], w, ws, st; split; [reflexivity|split; [constructor|split; [apply le_st_refl|]]].
    left; auto.
  - injection H as <- <-. exists [], w, ws, st; split; [reflexivity|split; [constructor|split; [apply le_st_refl|]]].
    right; eauto.
Qed.

Lemma built_by_name db st : build db empty = Ok tt st -> by_name st = map (fun p => (name p, p)) db.
Proof. intro B; exact (build_by_name _ _ _ B). Qed.

Lemma keys_built db st k :
  build db empty = Ok tt st -> (find_name k (by_name st) <> None <-> In k (map name db)).
Proof.
  intro B. rewrite (built_by_name _ _ B). split.
  - intro H; apply find_name_some_keys in H; rewrite map_map in H; exact H.
  - intro H; apply find_name_keys; rewrite map_map; exact H.
Qed.

(** [process] prints only when every name of the wants list is the name
    of an installed package: a name that packages merely provide is not
    accepted. *)
Theorem process_wants_installed db wants lines s :
  process_core db wants = Printed lines s -> Forall (fun w => In w (map name db)) wants.
Proof.
  unfold process_core; intro H.
  destruct (build db empty) as [[] st|e st] eqn:B; [|discriminate].
  destruct (mark_wants wants st) as [[e|] s1] eqn:MW; [discriminate|].
  eapply Forall_impl; [|exact (mark_wants_none_keys _ _ _ MW)].
  intros w Hw; exact (proj1 (keys_built _ _ _ B) Hw).
Qed.

(** [process] raises ["'w' is not installed"] only for a name [w] of the
    wants list that is no package name, after the package names before
    it in the list were marked without error; the database had distinct
    names. *)
Theorem process_not_installed db wants w s :
  process_core db wants = Failed (NotInstalled w) s ->
  NoDup (map name db) /\
  exists pre post, wants = pre ++ w :: post /\
    Forall (fun w' => In w' (map name db)) pre /\ ~ In w (map name db).
Proof.
  unfold process_core; intro H.
  pose proof (read_result_gen_nodup db) as Nd.
  destruct (build db empty) as [[] st|e st] eqn:B; [|discriminate].
  destruct (mark_wants wants st) as [[e|] s1] eqn:MW; [|discriminate].
  injection H as -> _.
  destruct (mark_wants_some _ _ _ _ MW) as [pre [w' [post [s0 [-> [Fp [L R]]]]]]].
  split; [exact (Nd st eq_refl)|].
  destruct R as [[E R]|[ge [E _]]]; [|discriminate].
  injection E as Ew; subst w'.
  exists pre, post; split; [reflexivity|split].
  - eapply Forall_impl; [|exact Fp]. intros a Ha; exact (proj1 (keys_built _ _ _ B) Ha).
  - intro I. apply (proj2 (keys_built _ _ _ B)) in I. apply I.
    apply mark_f_ok_false in R as [N _]. apply (find_le_none_iff _ _ _ L); exact N.
Qed.

(** [process] stops on an error of the graph only in two ways: reading
    the database met two packages with the same name ([DuplicationError]
    for that name), or marking met a dependency [d] of an installed
    package [q] that no installed package has as name or provides
    ([LookupError]).  (Only the errors of the model are covered: Python's
    own recursion limit is not modelled.) *)
Theorem process_graph_error db wants e s :
  process_core db wants = Failed (GraphError e) s ->
  (~ NoDup (map name db) /\ exists p, In p db /\ e = DuplicationError (name p)) \/
  (NoDup (map name db) /\
   exists d q, e = LookupError d q /\
     exists p, In p db /\ name p = q /\ In d (depends p) /\
       ~ In d (map name db) /\ providers d db = []).
Proof.
  unfold process_core; intro H.
  pose proof (read_result_gen_nodup db) as Nd.
  pose proof (build_result_gen db empty) as [Hr _]; simpl in Hr.
  destruct (build db empty) as [[] st|e' st] eqn:B.
  - destruct (mark_wants wants st) as [[e'|] s1] eqn:MW; [|discriminate].
    injection H as -> _.
    destruct (mark_wants_some _ _ _ _ MW) as [pre [w [post [s0 [_ [_ [L R]]]]]]].
    destruct R as [[E _]|[ge [E R]]]; [discriminate|]. injection E as <-.
    right; split; [exact (Nd st eq_refl)|].
    destruct (errs_mark _ w _ _ _ R) as [->|[d [q ->]]]; [exfalso; exact (mark_no_fuel_error _ _ _ R)|].
    exists d, q; split; [reflexivity|].
    apply lookup_accurate_f in R. apply (lookup_culprit_le _ _ _ _ L) in R.
    destruct R as [k [p [F [Nq [I [N Np]]]]]].
    exists p; split; [|split; [exact Nq|split; [exact I|split]]].
    + apply find_name_in in F. rewrite (built_by_name _ _ B) in F.
      apply in_map_iff in F as [p' [Ep Ip]]. injection Ep as _ <-; exact Ip.
    + intro Id. apply (proj2 (keys_built _ _ _ B) Id); exact N.
    + rewrite (build_prov_lookup _ _ _ _ B) in Np. simpl in Np.
      destruct (providers d db); [reflexivity|discriminate].
  - injection H as -> _. left; exact Hr.
Qed.

(* ------------------------------------------------------------------ *)
(** ** Text *)

Module TextFacts.
Import Text.

Lemma sapp_nil s : (s ++ "")%string = s.
Proof. induction s as [|c s IH]; simpl; [reflexivity|now rewrite IH]. Qed.

Lemma sapp_assoc a b c : ((a ++ b) ++ c)%string = (a ++ (b ++ c))%string.
Proof. induction a as [|x a IH]; simpl; [reflexivity|now rewrite IH]. Qed.

Lemma sconcat_cons x l : String.concat "" (x :: l) = (x ++ String.concat "" l)%string.
Proof. destruct l; simpl; [now rewrite sapp_nil|reflexivity]. Qed.

(** *** [splitlines] and [UserWantsList] *)

Lemma splitlines_line l rest cur :
  has_line_break l = false ->
  splitlines_aux (l ++ String "010" rest) cur = (cur ++ l)%string :: splitlines_aux rest "".
Proof.
  revert cur; induction l as [|c l IH]; intros cur H; simpl in *.
  - now rewrite sapp_nil.
  - apply Bool.orb_false_iff in H as [Hc Hl]. rewrite Hc, IH by exact Hl.
    now rewrite sapp_assoc.
Qed.

Lemma splitlines_lines ls :
  Forall (fun l => has_line_break l = false) ls ->
  splitlines (String.concat "" (map (fun l => l ++ String "010" "") ls)%string) = ls.
Proof.
  unfold splitlines; induction 1 as [|l ls Hl _ IH]; [reflexivity|].
  simpl map; rewrite sconcat_cons, sapp_assoc; simpl.
  rewrite splitlines_line by exact Hl. simpl; now rewrite IH.
Qed.

Lemma splitlines_aux_clean n : forall s cur,
  String.length s <= n -> has_line_break cur = false ->
  Forall (fun l => has_line_break l = false) (splitlines_aux s cur).
Proof.
  induction n as [|n IH]; intros s cur Hn Hc.
  - destruct s; [simpl; destruct (String.eqb cur ""); auto|simpl in Hn; lia].
  - destruct s as [|c s']; simpl.
    + destruct (String.eqb cur ""); auto.
    + simpl in Hn. destruct (is_line_break c) eqn:B.
      * destruct ((c =? "013")%char).
        -- destruct s' as [|c' s'']; [constructor; [exact Hc|apply IH; simpl; auto; lia]|].
           destruct ((c' =? "010")%char); constructor; auto; apply IH; simpl in *; auto; lia.
        -- constructor; [exact Hc|apply IH; auto; lia].
      * apply IH; [lia|].
        clear -Hc B. induction cur as [|x cur IHc]; simpl in *; [now rewrite B|].
        apply Bool.orb_false_iff in Hc as [H1 H2]. now rewrite H1, IHc.
Qed.

(** *** [re.split], [split] and [strip] on laid-out sections *)

Lemma upper_then_pct_nl i z b :
  Regex.has_nl i = false -> upper_then_pct (i ++ String "010" z) b = upper_then_pct i b.
Proof.
  revert b; induction i as [|c i IH]; intros b H; simpl in *; [destruct b; reflexivity|].
  apply Bool.orb_false_iff in H as [_ H]. destruct (is_upper c); [apply IH; exact H|reflexivity].
Qed.

Lemma header_ahead_nl i z :
  Regex.has_nl i = false -> header_ahead (i ++ String "010" z) = header_ahead i.
Proof.
  destruct i as [|c i]; simpl; [reflexivity|].
  intro H; apply Bool.orb_false_iff in H as [_ H]. now rewrite upper_then_pct_nl.
Qed.

Lemma re_split_first_app x z h t :
  Regex.has_nl x = false -> re_split_first z = (h, t) -> re_split_first (x ++ z) = ((x ++ h)%string, t).
Proof.
  induction x as [|c x IH]; intros Hx Hz; simpl in *; [exact Hz|].
  apply Bool.orb_false_iff in Hx as [Hc Hx]. rewrite (IH Hx Hz), Hc; reflexivity.
Qed.

Lemma re_split_first_nl z h t :
  re_split_first z = (h, t) ->
  re_split_first (String "010" z) =
  if header_ahead z then (""%string, h :: t) else (String "010" h, t).
Proof. intro H; simpl; rewrite H; reflexivity. Qed.

Lemma line_join_nil h : line_join h [] = h.
Proof. unfold line_join; simpl; apply sapp_nil. Qed.

Lemma line_join_cons h i items :
  line_join h (i :: items) = (h ++ String "010" (line_join i items))%string.
Proof. unfold line_join; simpl map; rewrite sconcat_cons; reflexivity. Qed.

Lemma line_join_nl i items z :
  exists w, (line_join i items ++ String "010" z)%string = (i ++ String "010" w)%string.
Proof.
  destruct items as [|i' items]; [exists z; now rewrite line_join_nil|].
  rewrite line_join_cons, sapp_assoc. simpl. eexists; reflexivity.
Qed.

Lemma re_split_first_lj items : forall h0 z h t,
  Regex.has_nl h0 = false ->
  forallb (fun i => negb (Regex.has_nl i) && negb (header_ahead i)) items = true ->
  re_split_first (String "010" z) = (h, t) ->
  re_split_first (line_join h0 items ++ String "010" z) = ((line_join h0 items ++ h)%string, t).
Proof.
  induction items as [|i items IH]; intros h0 z h t H0 Hi E.
  - rewrite line_join_nil. exact (re_split_first_app _ _ _ _ H0 E).
  - simpl in Hi; apply andb_true_iff in Hi as [Hi Hs].
    apply andb_true_iff in Hi as [H1 H2]; apply negb_true_iff in H1, H2.
    rewrite line_join_cons, !sapp_assoc. simpl (String "010" _ ++ _)%string.
    apply re_split_first_app; [exact H0|].
    erewrite re_split_first_nl; [|exact (IH i z h t H1 Hs E)].
    destruct (line_join_nl i items z) as [w Ew]. rewrite Ew, header_ahead_nl, H2 by exact H1.
    rewrite ?sapp_assoc; reflexivity.
Qed.

Lemma upper_pct_end_nl s b : upper_pct_end s b = true -> Regex.has_nl s = false.
Proof.
  revert b; induction s as [|c s IH]; intros b H; simpl in *; [discriminate|].
  destruct (is_upper c) eqn:U.
  - apply Bool.orb_false_iff; split; [|exact (IH _ H)].
    destruct c as [[] [] [] [] [] [] [] []]; try reflexivity; discriminate.
  - apply andb_true_iff in H as [H1 H2]. apply andb_true_iff in H1 as [H1 _].
    apply Ascii.eqb_eq in H1; subst c. apply String.eqb_eq in H2; subst s. reflexivity.
Qed.

Lemma upper_pct_end_ahead s b y : upper_pct_end s b = true -> upper_then_pct (s ++ y) b = true.
Proof.
  revert b; induction s as [|c s IH]; intros b H; simpl in *; [discriminate|].
  destruct (is_upper c); [exact (IH _ H)|].
  apply andb_true_iff in H as [H1 _]. exact H1.
Qed.

Lemma is_header_shape h : is_header h = true ->
  Regex.has_nl h = false /\ (forall y, header_ahead (h ++ y) = true) /\
  exists r, h = String "%" r.
Proof.
  destruct h as [|c r]; simpl; [discriminate|].
  intro H; apply andb_true_iff in H as [H1 H2].
  apply Ascii.eqb_eq in H1; subst c. split; [|split].
  - exact (upper_pct_end_nl _ _ H2).
  - intro y; simpl. exact (upper_pct_end_ahead _ _ _ H2).
  - eauto.
Qed.

Lemma rstrip_app_space x w : rstrip w = ""%string -> rstrip (x ++ w) = rstrip x.
Proof. intro H; induction x as [|c x IH]; simpl; [exact H|now rewrite IH]. Qed.

Lemma ends_nonspace_cons c y :
  ends_nonspace (String c y) = if String.eqb y "" then negb (is_space c) else ends_nonspace y.
Proof. destruct y; reflexivity. Qed.

Lemma rstrip_ends x : ends_nonspace x = true -> rstrip x = x.
Proof.
  induction x as [|c x IH]; [discriminate|].
  rewrite ends_nonspace_cons; simpl.
  destruct (String.eqb_spec x "") as [->|Hx]; simpl.
  - intro H; apply negb_true_iff in H; rewrite H; reflexivity.
  - intro H; rewrite (IH H). destruct (String.eqb_spec x ""); [contradiction|reflexivity].
Qed.

Lemma ends_nonspace_app x y : y <> ""%string -> ends_nonspace (x ++ y) = ends_nonspace y.
Proof.
  intro Hy; induction x as [|c x IH]; [reflexivity|].
  change ((String c x ++ y)%string) with (String c (x ++ y)).
  rewrite ends_nonspace_cons, IH.
  destruct (String.eqb_spec (x ++ y) "") as [E|]; [|reflexivity].
  destruct x, y; simpl in E; congruence.
Qed.

Lemma last_cons_default {X} (l : list X) : forall b d d', last (b :: l) d = last (b :: l) d'.
Proof. induction l as [|c l IH]; intros b d d'; [reflexivity|exact (IH c d d')]. Qed.

Lemma last_cons {X} (l : list X) a d : last (a :: l) d = last l a.
Proof. destruct l as [|b l]; [reflexivity|exact (last_cons_default l b d a)]. Qed.

Lemma ends_nonspace_lj items : forall h, ends_nonspace (line_join h items) = ends_nonspace (last items h).
Proof.
  induction items as [|i items IH]; intro h; [now rewrite line_join_nil|].
  rewrite line_join_cons, ends_nonspace_app by discriminate.
  rewrite ends_nonspace_cons, IH.
  rewrite last_cons.
  destruct (String.eqb_spec (line_join i items) "") as [E|]; [|reflexivity].
  destruct items as [|i' items]; [rewrite line_join_nil in E; subst i; reflexivity|].
  rewrite line_join_cons in E; destruct i; discriminate.
Qed.

(** The piece [re.split] cuts for a section, stripped, is its header and
    lines joined by newlines. *)
Lemma strip_section s w :
  section_ok s = true -> rstrip w = ""%string ->
  strip (line_join (fst s) (snd s) ++ w) = line_join (fst s) (snd s).
Proof.
  unfold section_ok; intros H Hw.
  apply andb_true_iff in H as [H He]. apply andb_true_iff in H as [Hh _].
  destruct (is_header_shape _ Hh) as [_ [_ [r Er]]].
  unfold strip.
  replace (lstrip (line_join (fst s) (snd s) ++ w)) with (line_join (fst s) (snd s) ++ w)%string
    by (unfold line_join; rewrite sapp_assoc, Er; reflexivity).
  rewrite rstrip_app_space by exact Hw. apply rstrip_ends.
  rewrite ends_nonspace_lj; exact He.
Qed.

Lemma re_split_first_section s y h t :
  section_ok s = true -> re_split_first y = (h, t) ->
  re_split_first (line_join (fst s) (snd s) ++ String "010" (String "010" y)) =
  if header_ahead y
  then ((line_join (fst s) (snd s) ++ String "010" "")%string, h :: t)
  else ((line_join (fst s) (snd s) ++ String "010" (String "010" h))%string, t).
Proof.
  unfold section_ok; intros H E.
  apply andb_true_iff in H as [H _]. apply andb_true_iff in H as [Hh Hi].
  destruct (is_header_shape _ Hh) as [Hn _].
  pose proof (re_split_first_nl _ _ _ E) as E1.
  destruct (header_ahead y).
  - rewrite (re_split_first_lj _ _ _ _ _ Hn Hi (re_split_first_nl _ _ _ E1)); reflexivity.
  - rewrite (re_split_first_lj _ _ _ _ _ Hn Hi (re_split_first_nl _ _ _ E1)); reflexivity.
Qed.

Lemma render_cons s secs :
  render (s :: secs) =
  (line_join (fst s) (snd s) ++ String "010" (String "010" (render secs)))%string.
Proof. unfold render; simpl map; rewrite sconcat_cons, sapp_assoc; reflexivity. Qed.

Lemma re_split_render secs : forall s,
  forallb section_ok (s :: secs) = true ->
  exists h t, re_split_first (render (s :: secs)) = (h, t) /\
    map strip (h :: t) = map (fun s => line_join (fst s) (snd s)) (s :: secs).
Proof.
  induction secs as [|s' secs IH]; intros s H; simpl in H; apply andb_true_iff in H as [Hs Hr].
  - rewrite render_cons. change (render []) with ""%string.
    rewrite (re_split_first_section s "" "" [] Hs eq_refl); simpl header_ahead; cbv iota.
    eexists; eexists; split; [reflexivity|]. simpl map.
    rewrite (strip_section s (String "010" (String "010" "")) Hs eq_refl); reflexivity.
  - destruct (IH s' Hr) as [h [t [E M]]].
    rewrite render_cons. rewrite (re_split_first_section s _ h t Hs E).
    assert (Ha : header_ahead (render (s' :: secs)) = true).
    { simpl in Hr; apply andb_true_iff in Hr as [Hs' _].
      unfold section_ok in Hs'; apply andb_true_iff in Hs' as [Hs' _]; apply andb_true_iff in Hs' as [Hh _].
      destruct (is_header_shape _ Hh) as [_ [Ha _]].
      rewrite render_cons; unfold line_join; rewrite sapp_assoc; apply Ha. }
    rewrite Ha. eexists; eexists; split; [reflexivity|].
    change (map strip ((line_join (fst s) (snd s) ++ String "010" "")%string :: h :: t))
      with (strip (line_join (fst s) (snd s) ++ String "010" "") :: map strip (h :: t)).
    rewrite M, (strip_section s (String "010" "") Hs eq_refl); reflexivity.
Qed.

Lemma split_first_app x z a b :
  Regex.has_nl x = false -> split_first z = (a, b) -> split_first (x ++ z) = ((x ++ a)%string, b).
Proof.
  induction x as [|c x IH]; intros Hx Hz; simpl in *; [exact Hz|].
  apply Bool.orb_false_iff in Hx as [Hc Hx]. rewrite (IH Hx Hz), Hc; reflexivity.
Qed.

Lemma split_first_lj items : forall h,
  Regex.has_nl h = false -> Forall (fun i => Regex.has_nl i = false) items ->
  split_first (line_join h items) = (h, items).
Proof.
  induction items as [|i items IH]; intros h Hh Hi.
  - rewrite line_join_nil. pose proof (split_first_app h "" "" [] Hh eq_refl) as E.
    rewrite !sapp_nil in E; exact E.
  - inversion Hi as [|? ? Hi1 Hi2]; subst.
    rewrite line_join_cons.
    assert (E : split_first (String "010" (line_join i items)) = (""%string, i :: items))
      by (simpl; rewrite (IH i Hi1 Hi2); reflexivity).
    rewrite (split_first_app _ _ _ _ Hh E), sapp_nil; reflexivity.
Qed.

Lemma sections_get_none k l : sections_get k l = None <-> ~ In k (map fst l).
Proof.
  induction l as [|[k' v] l IH]; simpl; [tauto|].
  destruct (String.eqb_spec k' k); [split; [discriminate|intro H; exfalso; auto]|].
  rewrite IH; split; [intros H [E|I]; [congruence|auto]|auto].
Qed.

Lemma section_ok_items s : section_ok s = true -> Forall (fun i => Regex.has_nl i = false) (snd s).
Proof.
  unfold section_ok; intro H. apply andb_true_iff in H as [H _]; apply andb_true_iff in H as [_ H].
  apply Forall_forall; intros i I. apply (proj1 (forallb_forall _ _) H) in I.
  apply andb_true_iff in I as [I _]; apply negb_true_iff; exact I.
Qed.

Lemma collect_lj path secs : forall acc,
  forallb section_ok secs = true -> NoDup (map fst acc) ->
  match collect path (map (fun s => line_join (fst s) (snd s)) secs) acc with
  | inr r => r = acc ++ secs /\ NoDup (map fst acc ++ map fst secs)
  | inl (DuplicateSection p h) => p = path /\ ~ NoDup (map fst acc ++ map fst secs) /\ In h (map fst secs)
  end.
Proof.
  induction secs as [|s secs IH]; intros acc H Nd; simpl.
  - rewrite !app_nil_r; auto.
  - simpl in H; apply andb_true_iff in H as [Hs Hr].
    pose proof Hs as Hs'. unfold section_ok in Hs'.
    apply andb_true_iff in Hs' as [Hs' _]; apply andb_true_iff in Hs' as [Hh _].
    rewrite (split_first_lj _ _ (proj1 (is_header_shape _ Hh)) (section_ok_items _ Hs)).
    destruct (sections_get (fst s) acc) as [v|] eqn:G.
    + split; [reflexivity|split; [|left; reflexivity]].
      intro Nd'. apply NoDup_remove_2 in Nd'. apply Nd'. apply in_or_app; left.
      destruct (in_dec string_dec (fst s) (map fst acc)) as [I|I]; [exact I|].
      apply sections_get_none in I; congruence.
    + apply sections_get_none in G.
      assert (Nd1 : NoDup (map fst (acc ++ [(fst s, snd s)]))).
      { rewrite map_app; simpl. apply NoDup_app; [exact Nd|constructor; [intros []|constructor]|].
        intros x Ix [<-|[]]. exact (G Ix). }
      specialize (IH _ Hr Nd1).
      replace (map fst (acc ++ [(fst s, snd s)]) ++ map fst secs) with (map fst acc ++ map fst (s :: secs)) in IH
        by (rewrite map_app, <- app_assoc; reflexivity).
      destruct (collect path (map (fun s => line_join (fst s) (snd s)) secs) (acc ++ [(fst s, snd s)])) as [[p h]|r].
      * destruct IH as [Hp [Hn Hi]]; split; [exact Hp|split; [exact Hn|right; exact Hi]].
      * destruct IH as [Hr' Hn]; split; [|exact Hn].
        rewrite Hr', <- app_assoc; destruct s; reflexivity.
Qed.

End TextFacts.

(** [Package.__read_sections_from] on a [desc] file laid out as pacman
    writes it (each section a [%HEADER%] line, its lines, then an empty
    line; lines without newline that do not start like a header; the last
    line of a section ending in a non-space): reading gives back the
    sections in order when their headers are distinct, and otherwise
    raises [DuplicationError.section] for the file and one of the
    headers. *)
Theorem read_sections_render path secs :
  secs <> [] -> forallb Text.section_ok secs = true ->
  match Text.read_sections_from path (Text.render secs) with
  | inr r => r = secs /\ NoDup (map fst secs)
  | inl (Text.DuplicateSection p h) => p = path /\ ~ NoDup (map fst secs) /\ In h (map fst secs)
  end.
Proof.
  destruct secs as [|s r]; [congruence|]. intros _ H.
  unfold Text.read_sections_from, Text.re_split.
  destruct (TextFacts.re_split_render r s H) as [h [t [E M]]].
  rewrite E, M. exact (TextFacts.collect_lj path (s :: r) [] H (NoDup_nil _)).
Qed.

(** [UserWantsList]: on a file whose lines (each ended by a newline)
    hold no line break character, the items are the lines that are not
    blank, in order and as written (surrounding spaces are kept). *)
Theorem wants_items_lines ls :
  Forall (fun l => Text.has_line_break l = false) ls ->
  Text.wants_items (String.concat "" (map (fun l => l ++ String "010" "") ls)%string) =
  filter (fun l => negb (String.eqb (Text.strip l) "")) ls.
Proof. intro H; unfold Text.wants_items; rewrite (TextFacts.splitlines_lines _ H); reflexivity. Qed.

(** [UserWantsList]: whatever the file, no item holds a line break
    character and no item is blank. *)
Theorem wants_items_clean text :
  Forall (fun l => Text.has_line_break l = false /\ Text.strip l <> ""%string) (Text.wants_items text).
Proof.
  unfold Text.wants_items, Text.splitlines.
  pose proof (TextFacts.splitlines_aux_clean (String.length text) text "" (le_n _) eq_refl) as H.
  apply Forall_forall; intros l I. apply filter_In in I as [I B].
  split; [exact (proj1 (Forall_forall _ _) H _ I)|].
  intro E; rewrite E in B; discriminate.
Qed.

(* ------------------------------------------------------------------ *)
(** ** Instances of the properties above *)

Lemma example_db_prov_keys : prov_keys (built example_db).
Proof. apply (prov_keys_build example_db empty); [apply prov_keys_empty|vm_compute; reflexivity]. Qed.

Lemma example_db_closed : closed_except [] (built example_db).
Proof. apply none_wanted_closed; vm_compute; repeat constructor. Qed.

Lemma mark_wanted_exact_witness :
  prov_keys (st_of (mark_wanted_by_name "a" (built example_db))) /\
  closed_except [] (st_of (mark_wanted_by_name "a" (built example_db))) /\
  (forall k, is_wanted (st_of (mark_wanted_by_name "a" (built example_db))) k = true <->
     is_wanted (built example_db) k = true \/ (true = true /\ reaches (built example_db) "a" k)).
Proof.
  apply (mark_wanted_exact "a" (built example_db) true);
    [exact example_db_prov_keys|exact example_db_closed|vm_compute; reflexivity].
Defined.

Lemma process_prints_unreached_witness :
  ["d - d"] = map output_line (filter (fun p => negb (is_wanted (result_state (process_core example_db ["a"])) (name p))) example_db) /\
  (forall k, is_wanted (result_state (process_core example_db ["a"])) k = true <->
     exists w, In w ["a"] /\ reaches (built example_db) w k).
Proof.
  apply (process_prints_unreached example_db ["a"]);
    [vm_compute; repeat constructor|vm_compute; reflexivity].
Defined.

Lemma read_by_provides_witness :
  find_prov "V" (by_provides (built example_db)) =
  match providers "V" example_db with [] => None | ns => Some ns end.
Proof. apply (read_by_provides example_db (built example_db) "V"); vm_compute; reflexivity. Defined.

Lemma mark_lookup_error_accurate_witness :
  exists k p, find_name k (by_name g_missing) = Some p /\ name p = "z" /\ In "e" (depends p) /\
    find_name "e" (by_name g_missing) = None /\ find_prov "e" (by_provides g_missing) = None.
Proof.
  apply (mark_lookup_error_accurate "z" g_missing "e" "z" (st_of (mark_wanted_by_name "z" g_missing))).
  vm_compute; reflexivity.
Defined.

Lemma process_wants_installed_witness : Forall (fun w => In w (map name example_db)) ["a"].
Proof.
  apply (process_wants_installed example_db ["a"] ["d - d"] (result_state (process_core example_db ["a"]))).
  vm_compute; reflexivity.
Defined.

Lemma process_not_installed_witness :
  NoDup (map name example_db) /\
  exists pre post, ["a"; "V"] = pre ++ "V" :: post /\
    Forall (fun w' => In w' (map name example_db)) pre /\ ~ In "V" (map name example_db).
Proof.
  apply (process_not_installed example_db ["a"; "V"] "V" (result_state (process_core example_db ["a"; "V"]))).
  vm_compute; reflexivity.
Defined.

Lemma process_graph_error_witness :
  let db := [example_pkg "z" ["e"; "d"] []] in
  (~ NoDup (map name db) /\ exists p, In p db /\ LookupError "e" "z" = DuplicationError (name p)) \/
  (NoDup (map name db) /\
   exists d q, LookupError "e" "z" = LookupError d q /\
     exists p, In p db /\ name p = q /\ In d (depends p) /\
       ~ In d (map name db) /\ providers d db = []).
Proof.
  apply (process_graph_error [example_pkg "z" ["e"; "d"] []] ["z"] (LookupError "e" "z")
           (result_state (process_core [example_pkg "z" ["e"; "d"] []] ["z"]))).
  vm_compute; reflexivity.
Defined.

Lemma read_sections_render_witness :
  match Text.read_sections_from "/var/lib/pacman/local/foo-1.0-1/desc" (Text.render foo_sections) with
  | inr r => r = foo_sections /\ NoDup (map fst foo_sections)
  | inl (Text.DuplicateSection p h) =>
      p = "/var/lib/pacman/local/foo-1.0-1/desc" /\ ~ NoDup (map fst foo_sections) /\ In h (map fst foo_sections)
  end.
Proof.
  apply (read_sections_render "/var/lib/pacman/local/foo-1.0-1/desc" foo_sections);
    [discriminate|vm_compute; reflexivity].
Defined.

Lemma wants_items_lines_witness :
  Text.wants_items (String.concat "" (map (fun l => l ++ String "010" "") ["foo"; ""; "  "; " bar "])%string) =
  filter (fun l => negb (String.eqb (Text.strip l) "")) ["foo"; ""; "  "; " bar "].
Proof. apply (wants_items_lines ["foo"; ""; "  "; " bar "]); vm_compute; repeat constructor. Defined.
